(** * Release observation and status aggregation of the helm-controller

    A shallow embedding of [internal/reconcile/release.go]: the merge of the
    observed releases into the history of a HelmRelease
    ([observedReleases.recordOnObject]), the summary of its conditions into
    [Ready] ([summarize], [conditionallyDeleteRemediated]) and the event
    helpers ([eventMessageWithLog], [eventMeta]).

    Slices are lists, the [int] and [int64] fields are [Z], Go maps are
    [gmap]s, and a function that mutates the object it points to returns the
    new object. *)

From Stdlib Require Import ZArith String Ascii List Lia.
From Stdlib Require Import Sorting.Permutation Sorting.Sorted Structures.OrderedTypeEx.
From stdpp Require Import base option list sorting gmap strings.

(** ** Go's [sort] package, as far as [release.go] and the conditions
    package call it *)

Module GoSort.
Section Data.
Context {A : Type}.

(** The comparator of the call site reads [data[i]] and [data[j]] of the
    slice being sorted; [less] is that comparison on the elements. *)
Variable less : A -> A -> bool.

Definition Less (data : list A) (i j : nat) : bool :=
  match data !! i, data !! j with
  | Some x, Some y => less x y
  | _, _ => false
  end.

Definition Swap (data : list A) (i j : nat) : list A :=
  match data !! i, data !! j with
  | Some x, Some y => <[i := y]> (<[j := x]> data)
  | _, _ => data
  end.

(** [for j := i; j > a && data.Less(j, j-1); j-- { data.Swap(j, j-1) }] *)
Fixpoint insertDown (data : list A) (a j : nat) {struct j} : list A :=
  match j with
  | O => data
  | S j' =>
      if (a <? j) && Less data j j'
      then insertDown (Swap data j j') a j'
      else data
  end.

(** [for i := a + 1; i < b; i++ { ... }] *)
Definition insertionSort_func (data : list A) (a b : nat) : list A :=
  fold_left (fun d i => insertDown d a i) (seq (a + 1) (b - (a + 1))) data.

(** [for i < j { h := int(uint(i+j) >> 1); if go_right h { i = h + 1 }
    else { j = h } }], the binary search of [symMerge]; the interval
    halves at each turn, so [j - i] turns are enough. *)
Fixpoint searchLoop (turns : nat) (go_right : nat -> bool) (i j : nat) : nat :=
  match turns with
  | O => i
  | S t =>
      if i <? j then
        let h := (i + j) / 2 in
        if go_right h then searchLoop t go_right (h + 1) j
        else searchLoop t go_right i h
      else i
  end.

Definition search (go_right : nat -> bool) (i j : nat) : nat :=
  searchLoop (j - i) go_right i j.

(** [for i := 0; i < n; i++ { data.Swap(a+i, b+i) }] *)
Definition swapRange_func (data : list A) (a b n : nat) : list A :=
  fold_left (fun d i => Swap d (a + i) (b + i)) (seq 0 n) data.

(** [for i != j { if i > j { swapRange(m-i, m, j); i -= j }
    else { swapRange(m-i, m+j-i, i); j -= i } }], then
    [swapRange(m-i, m, i)]; [i + j] shrinks at each turn. *)
Fixpoint rotateLoop (turns : nat) (data : list A) (m i j : nat) : list A :=
  match turns with
  | O => data
  | S t =>
      if i =? j then swapRange_func data (m - i) m i
      else if j <? i
           then rotateLoop t (swapRange_func data (m - i) m j) m (i - j) j
           else rotateLoop t (swapRange_func data (m - i) (m + j - i) i) m i (j - i)
  end.

Definition rotate_func (data : list A) (a m b : nat) : list A :=
  rotateLoop (S (b - a)) data m (m - a) (b - m).

(** [symMerge] merges the sorted runs [data[a:m]] and [data[m:b]]. Each
    recursive call works on a strictly shorter range, so [b - a] levels
    of recursion are enough. *)
Fixpoint symMergeLoop (levels : nat) (data : list A) (a m b : nat) : list A :=
  match levels with
  | O => data
  | S lv =>
      if m - a =? 1 then
        let i := search (fun h => Less data h a) m b in
        fold_left (fun d k => Swap d k (k + 1)) (seq a (i - 1 - a)) data
      else if b - m =? 1 then
        let i := search (fun h => negb (Less data m h)) a m in
        fold_left (fun d k => Swap d k (k - 1)) (rev (seq (i + 1) (m - i))) data
      else
        let mid := (a + b) / 2 in
        let n := mid + m in
        let start0 := if mid <? m then n - b else a in
        let r := if mid <? m then mid else m in
        let p := n - 1 in
        let start := search (fun c => negb (Less data (p - c) c)) start0 r in
        let end_ := n - start in
        let data1 :=
          if (start <? m) && (m <? end_) then rotate_func data start m end_
          else data in
        let data2 :=
          if (a <? start) && (start <? mid) then symMergeLoop lv data1 a start mid
          else data1 in
        if (mid <? end_) && (end_ <? b) then symMergeLoop lv data2 mid end_ b
        else data2
  end.

Definition symMerge_func (data : list A) (a m b : nat) : list A :=
  symMergeLoop (b - a) data a m b.

(** One pass of [stable] at a given block size:
    [for b <= n { symMerge(a, a+blockSize, b); a = b; b += 2*blockSize }]
    merges the neighbouring blocks pairwise, and
    [if m := a + blockSize; m < n { symMerge(a, m, n) }] the last full
    block with the short tail. *)
Definition mergePass (data : list A) (blockSize n : nat) : list A :=
  let pairs := n / (2 * blockSize) in
  let data1 :=
    fold_left
      (fun d k =>
         symMerge_func d (2 * blockSize * k) (2 * blockSize * k + blockSize)
           (2 * blockSize * (k + 1)))
      (seq 0 pairs) data in
  let a := 2 * blockSize * pairs in
  if a + blockSize <? n then symMerge_func data1 a (a + blockSize) n else data1.

(** [for blockSize < n { ...; blockSize *= 2 }] *)
Fixpoint mergePasses (turns : nat) (data : list A) (blockSize n : nat) : list A :=
  match turns with
  | O => data
  | S t =>
      if blockSize <? n
      then mergePasses t (mergePass data blockSize n) (2 * blockSize) n
      else data
  end.

(** [stable]: [for b <= n { insertionSort(a, b); a = b; b += blockSize }]
    and [insertionSort(a, n)] sort the blocks of 20 elements, then the
    merge passes run on blocks of doubling size. *)
Definition stable_func (data : list A) (n : nat) : list A :=
  let blockSize := 20 in
  let blocks := n / blockSize in
  let data1 :=
    fold_left
      (fun d k => insertionSort_func d (blockSize * k) (blockSize * (k + 1)))
      (seq 0 blocks) data in
  let data2 := insertionSort_func data1 (blockSize * blocks) n in
  mergePasses n data2 blockSize n.

(** [sort.SliceStable(x, less)] *)
Definition SliceStable (data : list A) : list A :=
  stable_func data (length data).

(** [sort.Slice(x, less)]: [pdqsort] runs the insertion sort on a slice of
    at most 12 elements; its work on a longer slice is [pdq]. *)
Definition Slice (pdq : list A -> list A) (data : list A) : list A :=
  if length data <=? 12 then insertionSort_func data 0 (length data)
  else pdq data.
End Data.
End GoSort.

Local Open Scope string_scope.

(** ** The data model *)

(** [metav1.ConditionStatus], the three values the API admits. *)
Inductive ConditionStatus := ConditionTrue | ConditionFalse | ConditionUnknown.

Global Instance ConditionStatus_eq_dec : EqDecision ConditionStatus.
Proof. solve_decision. Defined.

(** A point in time, in seconds; [0] is Go's zero time. *)
Definition Time := Z.

(** [metav1.Condition] *)
Record Condition := {
  Type_ : string;
  Status : ConditionStatus;
  ObservedGeneration : Z;
  LastTransitionTime : Time;
  Reason : string;
  Message : string
}.

Global Instance Condition_eq_dec : EqDecision Condition.
Proof. solve_decision. Defined.

(** The condition types of [api/v2beta2] and of [fluxcd/pkg/apis/meta]. *)
Definition RemediatedCondition : string := "Remediated".
Definition ReleasedCondition : string := "Released".
Definition TestSuccessCondition : string := "TestSuccess".
Definition ReadyCondition : string := "Ready".
Definition StalledCondition : string := "Stalled".

(** [v2.Test], the test configuration of the specification. *)
Record Test := { Enable : bool; IgnoreFailures : bool }.

(** Modelled from the spec: [release.Observation] is declared in
    [internal/release]; the spec gives it the version, name and namespace
    that identify a release, and the chart, the digest of the applied values
    and the outcome of the write. *)
Record Observation := {
  Name : string;
  Namespace : string;
  Version : Z;
  Chart : string;
  ConfigDigest : string;
  Outcome : string
}.

(** The zero value of [release.Observation], which indexing a Go map yields
    for a key it does not hold. *)
Definition zeroObservation : Observation :=
  {| Name := ""; Namespace := ""; Version := 0; Chart := "";
     ConfigDigest := ""; Outcome := "" |}.

(** Modelled from the spec: the test-hooks marker of a snapshot, hook name
    and the phase it ended in; [None] is the marker that was never set. *)
Definition TestHooksMarker := option (list (string * string)).

(** Modelled from the spec: [v2.Snapshot] is declared in [api/v2beta2]; the
    spec derives it from an observation and adds the test-hooks marker. *)
Record Snapshot := {
  SnapName : string;
  SnapNamespace : string;
  SnapVersion : Z;
  SnapChart : string;
  SnapConfigDigest : string;
  SnapStatus : string;
  TestHooks : TestHooksMarker
}.

Global Instance Snapshot_eq_dec : EqDecision Snapshot.
Proof. solve_decision. Defined.

Record HelmReleaseSpec := { SpecTest : option Test }.

Record HelmReleaseStatus := {
  Conditions : list Condition;
  History : list Snapshot
}.

(** [v2.HelmRelease], as far as [release.go] reads and writes it. *)
Record HelmRelease := {
  Generation : Z;
  Spec : HelmReleaseSpec;
  ObjStatus : HelmReleaseStatus
}.

(** [reconcile.Request] *)
Record Request := { Object : HelmRelease }.

(** [HelmRelease.GetTest]: the test configuration, or its zero value when
    the specification has none. *)
Definition GetTest (obj : HelmRelease) : Test :=
  match SpecTest (Spec obj) with
  | Some t => t
  | None => {| Enable := false; IgnoreFailures := false |}
  end.

Definition GetConditions (obj : HelmRelease) : list Condition :=
  Conditions (ObjStatus obj).

Definition SetConditions (obj : HelmRelease) (conds : list Condition) : HelmRelease :=
  {| Generation := Generation obj;
     Spec := Spec obj;
     ObjStatus := {| Conditions := conds; History := History (ObjStatus obj) |} |}.

Definition SetHistory (obj : HelmRelease) (h : list Snapshot) : HelmRelease :=
  {| Generation := Generation obj;
     Spec := Spec obj;
     ObjStatus := {| Conditions := Conditions (ObjStatus obj); History := h |} |}.

(** ** [fluxcd/pkg/runtime/conditions] *)

Module conditions.

(** [condition.Type == t] *)
Definition hasType (t : string) (c : Condition) : bool :=
  String.eqb (Type_ c) t.

(** [Get]: the first condition of the given type. *)
Definition Get (obj : HelmRelease) (t : string) : option Condition :=
  List.find (hasType t) (GetConditions obj).

(** [Delete]: a new slice that keeps the conditions of the other types. *)
Definition Delete (obj : HelmRelease) (t : string) : HelmRelease :=
  SetConditions obj (filter (fun c => Type_ c <> t) (GetConditions obj)).

(** [hasSameState]: the conditions agree on all but the transition time. *)
Definition hasSameState (i j : Condition) : bool :=
  String.eqb (Type_ i) (Type_ j)
  && bool_decide (Status i = Status j)
  && (ObservedGeneration i =? ObservedGeneration j)%Z
  && String.eqb (Reason i) (Reason j)
  && String.eqb (Message i) (Message j).

(** The order [Set] leaves the conditions in: [Ready] first, the others by
    ascending type. *)
Definition lexicographicLess (i j : Condition) : bool :=
  (String.eqb (Type_ i) ReadyCondition || String.ltb (Type_ i) (Type_ j))
  && negb (String.eqb (Type_ j) ReadyCondition).

Definition withTime (c : Condition) (t : Time) : Condition :=
  {| Type_ := Type_ c; Status := Status c;
     ObservedGeneration := ObservedGeneration c;
     LastTransitionTime := t; Reason := Reason c; Message := Message c |}.

Definition withGeneration (c : Condition) (g : Z) : Condition :=
  {| Type_ := Type_ c; Status := Status c;
     ObservedGeneration := g;
     LastTransitionTime := LastTransitionTime c;
     Reason := Reason c; Message := Message c |}.

(** The loop of [Set] over the existing conditions: the first condition of
    the type of [c] is overwritten when its state differs, and kept
    otherwise; [None] when no condition has that type. *)
Fixpoint setExisting (now : Time) (conds : list Condition) (c : Condition)
  : option (list Condition) :=
  match conds with
  | [] => None
  | existing :: rest =>
      if String.eqb (Type_ existing) (Type_ c) then
        if hasSameState existing c then Some (existing :: rest)
        else Some (withTime c now :: rest)
      else cons existing <$> setExisting now rest c
  end.

(** The conditions after the loop: the condition is appended when none
    has its type, with the time of the clock unless it brings its own. *)
Definition setOrAppend (now : Time) (conds : list Condition) (c : Condition)
  : list Condition :=
  match setExisting now conds c with
  | Some conds' => conds'
  | None =>
      (conds ++ [if (LastTransitionTime c =? 0)%Z then withTime c now else c])%list
  end.

(** [Set] (a reserved word here, hence [Set_]), at the time [now] on the
    clock: the condition takes the generation of the object, replaces the
    condition of its type or is appended, and the conditions are sorted
    with [sort.Slice]. *)
Definition Set_ (pdq : list Condition -> list Condition) (now : Time)
    (obj : HelmRelease) (condition : Condition) : HelmRelease :=
  let c := withGeneration condition (Generation obj) in
  let conds := setOrAppend now (GetConditions obj) c in
  SetConditions obj (GoSort.Slice lexicographicLess pdq conds).

End conditions.

(** ** [observedReleases] *)

(** Modelled from the spec: [release.ObservedToSnapshot] derives the
    snapshot of an observation; the marker of a fresh snapshot is not set. *)
Definition ObservedToSnapshot (obs : Observation) : Snapshot :=
  {| SnapName := Name obs; SnapNamespace := Namespace obs;
     SnapVersion := Version obs; SnapChart := Chart obs;
     SnapConfigDigest := ConfigDigest obs; SnapStatus := Outcome obs;
     TestHooks := None |}.

(** Modelled from the spec: [Snapshot.Targets] compares the identity of the
    snapshot, its name, namespace and version. *)
Definition Targets (snap : Snapshot) (name namespace : string) (version : Z) : bool :=
  String.eqb (SnapName snap) name
  && String.eqb (SnapNamespace snap) namespace
  && (SnapVersion snap =? version)%Z.

(** Modelled from the spec: the accessors of the test-hooks marker. *)
Definition GetTestHooks (snap : Snapshot) : TestHooksMarker := TestHooks snap.

Definition SetTestHooks (snap : Snapshot) (hooks : TestHooksMarker) : Snapshot :=
  {| SnapName := SnapName snap; SnapNamespace := SnapNamespace snap;
     SnapVersion := SnapVersion snap; SnapChart := SnapChart snap;
     SnapConfigDigest := SnapConfigDigest snap; SnapStatus := SnapStatus snap;
     TestHooks := hooks |}.

(** [type observedReleases map[int]release.Observation] *)
Abbreviation observedReleases := (gmap Z Observation).

(** [r[ver]] *)
Definition observedAt (r : observedReleases) (ver : Z) : Observation :=
  default zeroObservation (r !! ver).

(** [sortedVersions]: the keys of the map in descending order. The keys of a
    map are pairwise distinct, so every sort returns this one list. *)
Definition sortedVersions (r : observedReleases) : list Z :=
  merge_sort (flip Z.le) (fst <$> map_to_list r).

(** The loop of [recordOnObject] over the history, for one observation:
    [Some] history when a snapshot was replaced (the method returns there),
    [None] when no snapshot targets the observation. *)
Fixpoint replaceTargeted (obs : Observation) (history : list Snapshot)
  : option (list Snapshot) :=
  match history with
  | [] => None
  | snap :: rest =>
      if Targets snap (Name obs) (Namespace obs) (Version obs) then
        let newSnap := ObservedToSnapshot obs in
        Some (SetTestHooks newSnap (GetTestHooks snap) :: rest)
      else cons snap <$> replaceTargeted obs rest
  end.

(** [for _, ver := range versions[1:] { ... }] *)
Fixpoint recordRemaining (r : observedReleases) (versions : list Z)
    (history : list Snapshot) : list Snapshot :=
  match versions with
  | [] => history
  | ver :: rest =>
      match replaceTargeted (observedAt r ver) history with
      | Some history' => history'
      | None => recordRemaining r rest history
      end
  end.

(** [recordOnObject] *)
Definition recordOnObject (r : observedReleases) (obj : HelmRelease) : HelmRelease :=
  match size r with
  | 0%nat => obj
  | 1%nat =>
      let obs := fold_left (fun _ kv => snd kv) (map_to_list r) zeroObservation in
      SetHistory obj (ObservedToSnapshot obs :: History (ObjStatus obj))
  | _ =>
      match sortedVersions r with
      | [] => obj
      | ver0 :: rest =>
          let history :=
            ObservedToSnapshot (observedAt r ver0) :: History (ObjStatus obj) in
          SetHistory obj (recordRemaining r rest history)
      end
  end.

(** [observeRelease]: the observer stores the observation of a release
    under its version. *)
Definition observeRelease (observed : observedReleases) (obs : Observation)
  : observedReleases :=
  <[Version obs := obs]> observed.

(** ** [summarize] *)

(** Modelled from the spec: [inStringSlice] is declared elsewhere in the
    package; it gives the position of a type in the priority list, and no
    position for a type the list does not hold. *)
Fixpoint inStringSliceFrom (pos : Z) (ss : list string) (str : string) : Z * bool :=
  match ss with
  | [] => ((-1)%Z, false)
  | s :: rest =>
      if String.eqb s str then (pos, true)
      else inStringSliceFrom (pos + 1)%Z rest str
  end.

Definition inStringSlice (ss : list string) (str : string) : Z * bool :=
  inStringSliceFrom 0%Z ss str.

(** The priority list of [summarize]. *)
Definition sumConds (obj : HelmRelease) : list string :=
  if Enable (GetTest obj) && negb (IgnoreFailures (GetTest obj))
  then [RemediatedCondition; TestSuccessCondition; ReleasedCondition]
  else [RemediatedCondition; ReleasedCondition].

(** The comparator handed to [sort.SliceStable]. *)
Definition summaryLess (sumConds : list string) (ci cj : Condition) : bool :=
  let '(iPos, ok) := inStringSlice sumConds (Type_ ci) in
  if negb ok then false
  else
    let '(jPos, ok) := inStringSlice sumConds (Type_ cj) in
    if negb ok then true
    else (ObservedGeneration cj <=? ObservedGeneration ci)%Z && (iPos <? jPos)%Z.

(** [conditionallyDeleteRemediated], on the object of the request. *)
Definition conditionallyDeleteRemediated (obj : HelmRelease) : HelmRelease :=
  match conditions.Get obj RemediatedCondition with
  | None => obj
  | Some remediated =>
      match conditions.Get obj ReleasedCondition with
      | None => obj
      | Some released =>
          if negb (bool_decide (Status released = ConditionTrue)) then obj
          else if negb (Enable (GetTest obj)) || IgnoreFailures (GetTest obj) then
            if bool_decide (Status released = ConditionTrue)
               && (ObservedGeneration remediated <=? ObservedGeneration released)%Z
            then conditions.Delete obj RemediatedCondition
            else obj
          else
            match conditions.Get obj TestSuccessCondition with
            | None => obj
            | Some testSuccess =>
                if negb (bool_decide (Status testSuccess = ConditionTrue)) then obj
                else if bool_decide (Status testSuccess = ConditionTrue)
                        && (ObservedGeneration remediated
                              <=? ObservedGeneration testSuccess)%Z
                then conditions.Delete obj RemediatedCondition
                else obj
            end
      end
  end.

(** The status [summarize] gives [Ready] for the representative [c0]. *)
Definition readyStatus (c0 : Condition) : ConditionStatus :=
  if String.eqb (Type_ c0) RemediatedCondition then ConditionFalse
  else Status c0.

(** [summarize], on the object of the request. [sort.SliceStable] sorts the
    slice of the object in place, so the deletion of [Stalled] and [Set]
    start from the sorted conditions, and [conds[0]] is read from them. *)
Definition summarizeObject (pdq : list Condition -> list Condition) (now : Time)
    (obj : HelmRelease) : HelmRelease :=
  let sumConds := sumConds obj in
  let obj1 :=
    if negb (Enable (GetTest obj)) then conditions.Delete obj TestSuccessCondition
    else obj in
  let obj2 := conditionallyDeleteRemediated obj1 in
  match GetConditions obj2 with
  | [] => obj2
  | _ :: _ =>
      let conds := GoSort.SliceStable (summaryLess sumConds) (GetConditions obj2) in
      match conds with
      | [] => obj2
      | c0 :: _ =>
          let obj3 := SetConditions obj2 conds in
          let status := readyStatus c0 in
          let obj4 :=
            if bool_decide (status = ConditionTrue)
            then conditions.Delete obj3 StalledCondition
            else obj3 in
          conditions.Set_ pdq now obj4
            {| Type_ := ReadyCondition;
               Status := status;
               ObservedGeneration := Generation obj;
               LastTransitionTime := 0%Z;
               Reason := Reason c0;
               Message := Message c0 |}
      end
  end.

Definition summarize (pdq : list Condition -> list Condition) (now : Time)
    (req : Request) : Request :=
  {| Object := summarizeObject pdq now (Object req) |}.

(** ** The event helpers *)

(** Modelled from the spec: [action.LogBuffer] is declared in
    [internal/action]; [eventMessageWithLog] sees it through [Len] and
    [String] only, the number of buffered entries and their text. *)
Record LogBuffer := { Len : Z; LogString : string }.

Definition newline : string := String (ascii_of_nat 10) EmptyString.

(** The literal ["\n\nLast Helm logs:\n\n"]. *)
Definition logHeader : string :=
  newline ++ newline ++ "Last Helm logs:" ++ newline ++ newline.

(** [eventMessageWithLog]; [None] is the nil buffer. *)
Definition eventMessageWithLog (msg : string) (log : option LogBuffer) : string :=
  match log with
  | Some l => if (0 <? Len l)%Z then msg ++ logHeader ++ LogString l else msg
  | None => msg
  end.

(** The keys of [fluxcd/pkg/apis/event]. *)
Definition MetaRevisionKey : string := "revision".
Definition MetaTokenKey : string := "token".

Section EventMeta.
(** [v2.GroupVersion.Group], declared in [api/v2beta2]. *)
Variable Group : string.

(** [eventMetaGroupKey] *)
Definition eventMetaGroupKey (key : string) : string :=
  Group ++ "/" ++ key.

(** [eventMeta]; [None] is the nil map. *)
Definition eventMeta (revision token : string) : option (gmap string string) :=
  if negb (String.eqb revision "") || negb (String.eqb token "") then
    let metadata : gmap string string := ∅ in
    let metadata :=
      if negb (String.eqb revision "")
      then <[eventMetaGroupKey MetaRevisionKey := revision]> metadata
      else metadata in
    let metadata :=
      if negb (String.eqb token "")
      then <[eventMetaGroupKey MetaTokenKey := token]> metadata
      else metadata in
    Some metadata
  else None.
End EventMeta.

(** ** Vocabulary of the statements *)

(** The snapshot has the identity of the observation. *)
Definition targetsObservation (obs : Observation) (snap : Snapshot) : bool :=
  Targets snap (Name obs) (Namespace obs) (Version obs).

(** The observed set as [observeRelease] fills it: every observation sits
    under its own version. *)
Definition keyedByVersion (r : observedReleases) : Prop :=
  forall ver obs, r !! ver = Some obs -> Version obs = ver.

(** The object as [summarize] has it when it reaches the sort: a stale
    [TestSuccess] and a cleared [Remediated] are gone. *)
Definition summarizeInput (obj : HelmRelease) : HelmRelease :=
  conditionallyDeleteRemediated
    (if negb (Enable (GetTest obj))
     then conditions.Delete obj TestSuccessCondition
     else obj).

(** The conditions after [sort.SliceStable]. *)
Definition sortedConditions (obj : HelmRelease) : list Condition :=
  GoSort.SliceStable (summaryLess (sumConds obj)) (GetConditions (summarizeInput obj)).

(** The representative of the summary, [conds[0]] after the sort. *)
Definition representative (obj : HelmRelease) : option Condition :=
  head (sortedConditions obj).

(** The condition [summarize] hands to [Set]. *)
Definition readyOf (obj : HelmRelease) (c0 : Condition) : Condition :=
  {| Type_ := ReadyCondition;
     Status := readyStatus c0;
     ObservedGeneration := Generation obj;
     LastTransitionTime := 0%Z;
     Reason := Reason c0;
     Message := Message c0 |}.

(** Two conditions agree on all but the transition time. *)
Definition sameState (c d : Condition) : Prop :=
  Type_ c = Type_ d /\ Status c = Status d
  /\ ObservedGeneration c = ObservedGeneration d
  /\ Reason c = Reason d /\ Message c = Message d.

(** The conditions of one type, in the order of the slice. *)
Definition ofType (t : string) (conds : list Condition) : list Condition :=
  filter (fun c => Type_ c = t) conds.

(** What the summary relies on from [pdqsort]: it permutes the slice, and
    it sorts it, so that no condition is less than one before it. *)
Definition pdqPermutes (pdq : list Condition -> list Condition) : Prop :=
  forall l, pdq l ≡ₚ l.

Definition pdqSorts (pdq : list Condition -> list Condition) : Prop :=
  forall l,
    StronglySorted (fun x y => conditions.lexicographicLess y x = false) (pdq l).

(** The state machine of the spec for the remediation lifecycle: whether
    the [Remediated] condition is cleared. *)
Definition remediationCleared (obj : HelmRelease) : bool :=
  match conditions.Get obj RemediatedCondition,
        conditions.Get obj ReleasedCondition with
  | Some remediated, Some released =>
      bool_decide (Status released = ConditionTrue)
      && (if negb (Enable (GetTest obj)) || IgnoreFailures (GetTest obj)
          then (ObservedGeneration remediated <=? ObservedGeneration released)%Z
          else
            match conditions.Get obj TestSuccessCondition with
            | Some testSuccess =>
                bool_decide (Status testSuccess = ConditionTrue)
                && (ObservedGeneration remediated
                      <=? ObservedGeneration testSuccess)%Z
            | None => false
            end)
  | _, _ => false
  end.

(** The insertion sort as a function on lists: [insertInto] puts [x] into
    the sorted prefix, which [q] holds with its last element first. *)
Fixpoint insertInto {A : Type} (less : A -> A -> bool) (x : A) (q : list A)
  : list A :=
  match q with
  | [] => [x]
  | y :: q' => if less x y then y :: insertInto less x q' else x :: q
  end.

Definition insertionSorted {A : Type} (less : A -> A -> bool) (l : list A)
  : list A :=
  reverse (fold_left (fun q x => insertInto less x q) l []).

(** The order [Set] leaves the conditions in: each one less than all that
    follow, so [Ready] first, the other types ascending, no type twice. *)
Definition canonical (conds : list Condition) : Prop :=
  StronglySorted (fun x y => conditions.lexicographicLess x y = true) conds.

(** The state of the [Ready] condition of an object: its status, reason,
    message and generation. *)
Definition readyState (obj : HelmRelease)
  : option (ConditionStatus * string * string * Z) :=
  (fun c => (Status c, Reason c, Message c, ObservedGeneration c))
    <$> conditions.Get obj ReadyCondition.

(** The observed set after the observer has seen the writes of an action,
    one release after the other. *)
Definition observeAll (observed : observedReleases) (writes : list Observation)
  : observedReleases :=
  fold_left observeRelease writes observed.

(** The last write of a version among the writes of an action. *)
Definition lastWrite (ver : Z) (writes : list Observation) : option Observation :=
  last (filter (fun obs => Version obs = ver) writes).

(** The entry of the history is still the one it was: the same release,
    with the same test-hooks marker. *)
Definition sameEntry (old new : Snapshot) : Prop :=
  SnapName new = SnapName old
  /\ SnapNamespace new = SnapNamespace old
  /\ SnapVersion new = SnapVersion old
  /\ GetTestHooks new = GetTestHooks old.

(** The condition the summary settles on when the conditions are in the
    order of [Set]: a [Remediated] that was not cleared, unless [Released]
    has the greater generation; else [TestSuccess], when the tests count
    and [Released] does not have the greater generation; else [Released];
    and with none of them the first condition of the slice. *)
Definition summaryChoice (obj : HelmRelease) : option Condition :=
  let inp := summarizeInput obj in
  let testSuccess :=
    if Enable (GetTest obj) && negb (IgnoreFailures (GetTest obj))
    then conditions.Get inp TestSuccessCondition
    else None in
  match conditions.Get inp RemediatedCondition,
        conditions.Get inp ReleasedCondition with
  | Some remediated, Some released =>
      if (ObservedGeneration released <=? ObservedGeneration remediated)%Z
      then Some remediated
      else Some released
  | Some remediated, None => Some remediated
  | None, Some released =>
      match testSuccess with
      | Some tested =>
          if (ObservedGeneration released <=? ObservedGeneration tested)%Z
          then Some tested
          else Some released
      | None => Some released
      end
  | None, None =>
      match testSuccess with
      | Some tested => Some tested
      | None => head (GetConditions inp)
      end
  end.

(** ** Sample objects *)

(** The insertion sort of [sort.Slice] on every slice; it meets what the
    summary relies on from [pdqsort]. *)
Definition pdqInsertion (l : list Condition) : list Condition :=
  GoSort.insertionSort_func conditions.lexicographicLess l 0 (length l).

(** A condition that changed at time 1, and an object without history. *)
Definition condition (t : string) (status : ConditionStatus) (generation : Z)
    (reason message : string) : Condition :=
  {| Type_ := t; Status := status; ObservedGeneration := generation;
     LastTransitionTime := 1%Z; Reason := reason; Message := message |}.

Definition object (generation : Z) (test : option Test) (conds : list Condition)
  : HelmRelease :=
  {| Generation := generation;
     Spec := {| SpecTest := test |};
     ObjStatus := {| Conditions := conds; History := [] |} |}.

(** Released at generation 5, remediated at generation 6, no tests. *)
Definition remediatedObject : HelmRelease :=
  object 6 None
    [condition ReleasedCondition ConditionTrue 5 "UpgradeSucceeded" "upgraded";
     condition RemediatedCondition ConditionTrue 6 "RollbackSucceeded" "rolled back"].

(** Tests were disabled after a test run had succeeded. *)
Definition staleTestObject : HelmRelease :=
  object 3 (Some {| Enable := false; IgnoreFailures := false |})
    [condition TestSuccessCondition ConditionTrue 2 "TestSucceeded" "tests passed"].

(** A failed test run is the only condition, and no test configuration. *)
Definition failedTestObject : HelmRelease :=
  object 2 None
    [condition TestSuccessCondition ConditionFalse 1 "TestFailed" "tests failed"].

(** The only condition is [Stalled]. *)
Definition stalledObject : HelmRelease :=
  object 4 None
    [condition StalledCondition ConditionTrue 4 "RetriesExceeded" "gave up"].

(** Remediated at generation 1, then a failed upgrade at generation 2. *)
Definition failedUpgradeObject : HelmRelease :=
  object 2 None
    [condition RemediatedCondition ConditionTrue 1 "RollbackSucceeded" "rolled back";
     condition ReleasedCondition ConditionFalse 2 "UpgradeFailed" "upgrade failed"].

(** Remediated at generation 1, released at generation 2, the tests of
    that release still to run. *)
Definition untestedObject : HelmRelease :=
  object 2 (Some {| Enable := true; IgnoreFailures := false |})
    [condition RemediatedCondition ConditionTrue 1 "RollbackSucceeded" "rolled back";
     condition ReleasedCondition ConditionTrue 2 "UpgradeSucceeded" "upgraded"].

(** Released at generation 5 after a remediation at generation 3. *)
Definition recoveredObject : HelmRelease :=
  object 5 None
    [condition ReleasedCondition ConditionTrue 5 "UpgradeSucceeded" "upgraded";
     condition RemediatedCondition ConditionTrue 3 "RollbackSucceeded" "rolled back"].

(** Released at generation 4, and the tests of that release failed. *)
Definition failedTestsObject : HelmRelease :=
  object 4 (Some {| Enable := true; IgnoreFailures := false |})
    [condition ReleasedCondition ConditionTrue 4 "UpgradeSucceeded" "upgraded";
     condition TestSuccessCondition ConditionFalse 4 "TestFailed" "tests failed"].

(** Conditions of other controllers, of the types [F00], [F01], ... *)
Definition foreignType (i : nat) : string :=
  String "F"
    (String (ascii_of_nat (48 + i / 10))
       (String (ascii_of_nat (48 + i mod 10)) EmptyString)).

Definition foreignConditions (n : nat) : list Condition :=
  (fun i => condition (foreignType i) ConditionUnknown 0 "Pending" "pending")
    <$> seq 0 n.

(** 21 conditions in the order [Set] leaves them in: 18 of other
    controllers, then released at generation 2, remediated at generation 1,
    and the tests of generation 2 failed. *)
Definition crowdedObject : HelmRelease :=
  object 2 (Some {| Enable := true; IgnoreFailures := false |})
    (foreignConditions 18
       ++ [condition ReleasedCondition ConditionTrue 2 "UpgradeSucceeded" "upgraded";
           condition RemediatedCondition ConditionTrue 1 "RollbackSucceeded"
             "rolled back";
           condition TestSuccessCondition ConditionFalse 2 "TestFailed"
             "tests failed"])%list.

(** In the order of [Set]: released at generation 5 after a remediation at
    generation 3, and the tests of generation 5 failed. *)
Definition failedRetestObject : HelmRelease :=
  object 5 (Some {| Enable := true; IgnoreFailures := false |})
    [condition ReleasedCondition ConditionTrue 5 "UpgradeSucceeded" "upgraded";
     condition RemediatedCondition ConditionTrue 3 "RollbackSucceeded" "rolled back";
     condition TestSuccessCondition ConditionFalse 5 "TestFailed" "tests failed"].

(** Tests enabled: released at generation 2, remediated at generation 3,
    and a test run of generation 3 succeeded. *)
Definition olderReleaseObject : HelmRelease :=
  object 3 (Some {| Enable := true; IgnoreFailures := false |})
    [condition ReleasedCondition ConditionTrue 2 "UpgradeSucceeded" "upgraded";
     condition RemediatedCondition ConditionTrue 3 "RollbackSucceeded" "rolled back";
     condition TestSuccessCondition ConditionTrue 3 "TestSucceeded" "tests passed"].




Local Close Scope string_scope.

(** ** The sort package: permutations *)

Section GoSortPermutation.
Context {A : Type}.
Variable less : A -> A -> bool.

Lemma insert_swap_Permutation (l : list A) (k : nat) (x y : A) :
  l !! k = Some y -> y :: <[k := x]> l ≡ₚ x :: l.
Proof.
  revert k. induction l as [|b l IH]; intros [|k] Hk; simplify_eq/=.
  - apply perm_swap.
  - rewrite perm_swap. rewrite (IH k Hk). apply perm_swap.
Qed.

Lemma Swap_Permutation (data : list A) (i j : nat) :
  GoSort.Swap data i j ≡ₚ data.
Proof.
  unfold GoSort.Swap.
  destruct (data !! i) as [x|] eqn:Hi; [|done].
  destruct (data !! j) as [y|] eqn:Hj; [|done].
  revert i j Hi Hj. induction data as [|a l IH]; intros [|i] [|j] Hi Hj;
    simplify_eq/=; try done.
  - by apply insert_swap_Permutation.
  - by apply insert_swap_Permutation.
  - f_equiv. by apply IH.
Qed.

Lemma fold_left_Permutation {B} (f : list A -> B -> list A) (ks : list B)
    (data : list A) :
  (forall d k, f d k ≡ₚ d) -> fold_left f ks data ≡ₚ data.
Proof.
  intros Hf. revert data. induction ks as [|k ks IH]; intros data; simpl.
  - done.
  - rewrite IH. apply Hf.
Qed.

Lemma insertDown_Permutation (data : list A) (a j : nat) :
  GoSort.insertDown less data a j ≡ₚ data.
Proof.
  revert data. induction j as [|j IH]; intros data; simpl; [done|].
  destruct ((a <? S j) && GoSort.Less less data (S j) j); [|done].
  rewrite IH. apply Swap_Permutation.
Qed.

Lemma insertionSort_Permutation (data : list A) (a b : nat) :
  GoSort.insertionSort_func less data a b ≡ₚ data.
Proof.
  apply fold_left_Permutation. intros. apply insertDown_Permutation.
Qed.

Lemma swapRange_Permutation (data : list A) (a b n : nat) :
  GoSort.swapRange_func data a b n ≡ₚ data.
Proof.
  apply fold_left_Permutation. intros. apply Swap_Permutation.
Qed.

Lemma rotateLoop_Permutation (turns : nat) (data : list A) (m i j : nat) :
  GoSort.rotateLoop turns data m i j ≡ₚ data.
Proof.
  revert data i j. induction turns as [|t IH]; intros data i j; simpl; [done|].
  destruct (i =? j); [apply swapRange_Permutation|].
  destruct (j <? i); rewrite IH; apply swapRange_Permutation.
Qed.

Lemma rotate_Permutation (data : list A) (a m b : nat) :
  GoSort.rotate_func data a m b ≡ₚ data.
Proof. apply rotateLoop_Permutation. Qed.

Lemma symMergeLoop_Permutation (levels : nat) (data : list A) (a m b : nat) :
  GoSort.symMergeLoop less levels data a m b ≡ₚ data.
Proof.
  revert data a m b. induction levels as [|lv IH]; intros data a m b; simpl; [done|].
  destruct (m - a =? 1).
  { apply fold_left_Permutation. intros. apply Swap_Permutation. }
  destruct (b - m =? 1).
  { apply fold_left_Permutation. intros. apply Swap_Permutation. }
  repeat match goal with
         | |- context [if ?c then _ else _] => destruct c
         end;
    rewrite ?IH, ?rotate_Permutation; done.
Qed.

Lemma symMerge_Permutation (data : list A) (a m b : nat) :
  GoSort.symMerge_func less data a m b ≡ₚ data.
Proof. apply symMergeLoop_Permutation. Qed.

Lemma mergePass_Permutation (data : list A) (blockSize n : nat) :
  GoSort.mergePass less data blockSize n ≡ₚ data.
Proof.
  unfold GoSort.mergePass.
  destruct (_ <? n); rewrite ?symMerge_Permutation;
    apply fold_left_Permutation; intros; apply symMerge_Permutation.
Qed.

Lemma mergePasses_Permutation (turns : nat) (data : list A) (blockSize n : nat) :
  GoSort.mergePasses less turns data blockSize n ≡ₚ data.
Proof.
  revert data blockSize. induction turns as [|t IH]; intros data blockSize;
    simpl; [done|].
  destruct (blockSize <? n); [|done].
  rewrite IH. apply mergePass_Permutation.
Qed.

Lemma SliceStable_Permutation (data : list A) :
  GoSort.SliceStable less data ≡ₚ data.
Proof.
  unfold GoSort.SliceStable, GoSort.stable_func.
  rewrite mergePasses_Permutation, insertionSort_Permutation.
  apply fold_left_Permutation. intros. apply insertionSort_Permutation.
Qed.

Lemma Slice_Permutation (pdq : list A -> list A) (data : list A) :
  (forall l, pdq l ≡ₚ l) -> GoSort.Slice less pdq data ≡ₚ data.
Proof.
  intros Hpdq. unfold GoSort.Slice.
  destruct (length data <=? 12); [apply insertionSort_Permutation|apply Hpdq].
Qed.
End GoSortPermutation.

(** ** The sort package: the loops run to their end

    The loops of the package that are not plain counting loops are written
    with a bound on their turns. The bound each caller gives is enough: a
    larger one gives the same slice, so no loop stops short. *)

Section GoSortTurns.
Context {A : Type}.
Variable less : A -> A -> bool.

Lemma half_bounds (i j : nat) : i < j -> i <= (i + j) / 2 /\ (i + j) / 2 < j.
Proof.
  intros Hlt. split.
  - apply Nat.div_le_lower_bound; lia.
  - apply Nat.Div0.div_lt_upper_bound. lia.
Qed.

Lemma searchLoop_enough (turns turns' : nat) (go_right : nat -> bool) (i j : nat) :
  j - i <= turns -> j - i <= turns' ->
  GoSort.searchLoop turns go_right i j = GoSort.searchLoop turns' go_right i j.
Proof.
  revert turns' i j. induction turns as [|t IH]; intros [|t'] i j Ht Ht';
    cbn [GoSort.searchLoop]; try done.
  - by rewrite (proj2 (Nat.ltb_ge i j)) by lia.
  - by rewrite (proj2 (Nat.ltb_ge i j)) by lia.
  - destruct (Nat.ltb_spec i j) as [Hlt|Hge]; [|done].
    destruct (half_bounds i j Hlt) as [Hlo Hhi]. revert Hlo Hhi.
    generalize ((i + j) / 2). intros h Hlo Hhi.
    destruct (go_right h); apply IH; lia.
Qed.

Lemma rotateLoop_enough (turns turns' : nat) (data : list A) (m i j : nat) :
  0 < i -> 0 < j -> i + j <= turns -> i + j <= turns' ->
  GoSort.rotateLoop turns data m i j = GoSort.rotateLoop turns' data m i j.
Proof.
  revert turns' data i j.
  induction turns as [|t IH]; intros [|t'] data i j Hi Hj Ht Ht';
    cbn [GoSort.rotateLoop]; try lia.
  destruct (Nat.eqb_spec i j); [done|].
  destruct (Nat.ltb_spec j i); apply IH; lia.
Qed.

(** The turns [rotate_func] allows are enough whenever both blocks hold an
    element, which is when [symMerge] calls it. *)
Lemma rotate_enough (turns : nat) (data : list A) (a m b : nat) :
  a < m -> m < b -> b - a <= turns ->
  GoSort.rotate_func data a m b = GoSort.rotateLoop turns data m (m - a) (b - m).
Proof. intros. apply rotateLoop_enough; lia. Qed.

Lemma symMergeLoop_enough (levels levels' : nat) (data : list A) (a m b : nat) :
  a < m -> m < b -> b - a <= levels -> b - a <= levels' ->
  GoSort.symMergeLoop less levels data a m b
  = GoSort.symMergeLoop less levels' data a m b.
Proof.
  revert levels' data a m b.
  induction levels as [|lv IH]; intros [|lv'] data a m b Ham Hmb Hl Hl';
    try lia.
  cbn [GoSort.symMergeLoop].
  destruct (m - a =? 1); [done|]. destruct (b - m =? 1); [done|].
  destruct (half_bounds a b ltac:(lia)) as [_ Hhi].
  assert (Hlo : a < (a + b) / 2) by (apply Nat.div_le_lower_bound; lia).
  revert Hlo Hhi. generalize ((a + b) / 2). intros mid Hlo Hhi.
  set (start := GoSort.search _ _ _).
  set (data1 := if (start <? m) && (m <? mid + m - start) then _ else _).
  assert (Hfirst :
    (if (a <? start) && (start <? mid)
     then GoSort.symMergeLoop less lv data1 a start mid else data1)
    = (if (a <? start) && (start <? mid)
       then GoSort.symMergeLoop less lv' data1 a start mid else data1)).
  { destruct (Nat.ltb_spec a start); [|done].
    destruct (Nat.ltb_spec start mid); [|done]. simpl. apply IH; lia. }
  rewrite Hfirst.
  destruct (Nat.ltb_spec mid (mid + m - start)); [|done].
  destruct (Nat.ltb_spec (mid + m - start) b); [|done]. simpl. apply IH; lia.
Qed.

(** [symMerge_func] on two runs that each hold an element. *)
Lemma symMerge_enough (levels : nat) (data : list A) (a m b : nat) :
  a < m -> m < b -> b - a <= levels ->
  GoSort.symMerge_func less data a m b = GoSort.symMergeLoop less levels data a m b.
Proof. intros. apply symMergeLoop_enough; lia. Qed.

Lemma mergePasses_enough (turns turns' : nat) (data : list A) (blockSize n : nat) :
  0 < blockSize -> n < blockSize + turns -> n < blockSize + turns' ->
  GoSort.mergePasses less turns data blockSize n
  = GoSort.mergePasses less turns' data blockSize n.
Proof.
  revert turns' data blockSize.
  induction turns as [|t IH]; intros [|t'] data blockSize Hb Ht Ht';
    cbn [GoSort.mergePasses]; try done.
  - by rewrite (proj2 (Nat.ltb_ge blockSize n)) by lia.
  - by rewrite (proj2 (Nat.ltb_ge blockSize n)) by lia.
  - destruct (Nat.ltb_spec blockSize n); [|done]. apply IH; lia.
Qed.

(** The merge passes of [stable_func] run until the block size reaches the
    length. *)
Lemma stable_passes_enough (turns : nat) (data : list A) (n : nat) :
  n <= turns ->
  GoSort.mergePasses less n data 20 n = GoSort.mergePasses less turns data 20 n.
Proof. intros. apply mergePasses_enough; lia. Qed.
End GoSortTurns.

(** ** The sort package: a comparator that never holds *)

Section GoSortNeverLess.
Context {A : Type}.
Variable less : A -> A -> bool.

Lemma fold_left_fixed {B} (f : list A -> B -> list A) (ks : list B) (data : list A) :
  (forall k, f data k = data) -> fold_left f ks data = data.
Proof.
  intros Hf. induction ks as [|k ks IH]; simpl; [done|]. by rewrite Hf.
Qed.

Lemma searchLoop_never (turns : nat) (go_right : nat -> bool) (i j : nat) :
  (forall h, go_right h = false) -> GoSort.searchLoop turns go_right i j = i.
Proof.
  intros Hf. revert j. induction turns as [|t IH]; intros j;
    cbn [GoSort.searchLoop]; [done|].
  destruct (i <? j); [|done]. by rewrite Hf.
Qed.

Lemma searchLoop_always (turns : nat) (go_right : nat -> bool) (i j : nat) :
  (forall h, go_right h = true) -> j - i <= turns ->
  j <= GoSort.searchLoop turns go_right i j.
Proof.
  intros Hf. revert i. induction turns as [|t IH]; intros i Ht;
    cbn [GoSort.searchLoop]; [lia|].
  destruct (Nat.ltb_spec i j) as [Hlt|Hge]; [|lia].
  rewrite Hf.
  assert (Hh : i <= (i + j) / 2) by (apply Nat.div_le_lower_bound; lia).
  revert Hh. generalize ((i + j) / 2). intros h Hh. apply IH. lia.
Qed.

Lemma search_always (go_right : nat -> bool) (i j : nat) :
  (forall h, go_right h = true) -> j <= GoSort.search go_right i j.
Proof. intros Hf. by apply searchLoop_always. Qed.

Section Never.
Variable data : list A.
Hypothesis never : Forall (fun x => forall y, less x y = false) data.

Lemma Less_never (i j : nat) : GoSort.Less less data i j = false.
Proof.
  unfold GoSort.Less. destruct (data !! i) as [x|] eqn:Hi; [|done].
  destruct (data !! j) as [y|]; [|done].
  rewrite Forall_lookup in never. by apply (never i x).
Qed.

Lemma insertDown_never (a j : nat) : GoSort.insertDown less data a j = data.
Proof. destruct j as [|j]; simpl; [done|]. by rewrite Less_never, andb_false_r. Qed.

Lemma insertionSort_never (a b : nat) :
  GoSort.insertionSort_func less data a b = data.
Proof. apply fold_left_fixed. intros. apply insertDown_never. Qed.

Lemma symMergeLoop_never (levels a m b : nat) :
  GoSort.symMergeLoop less levels data a m b = data.
Proof.
  revert a m b. induction levels as [|lv IH]; intros a m b;
    cbn [GoSort.symMergeLoop]; [done|].
  destruct (Nat.eqb_spec (m - a) 1) as [Hma|Hma].
  { unfold GoSort.search. rewrite searchLoop_never by (intros; apply Less_never).
    by replace (m - 1 - a) with 0 by lia. }
  destruct (Nat.eqb_spec (b - m) 1) as [Hbm|Hbm].
  { pose proof (search_always (fun h => negb (GoSort.Less less data m h)) a m)
      as Hge.
    rewrite (proj2 (Nat.sub_0_le m _)); [done|].
    apply Hge. intros. by rewrite Less_never. }
  set (mid := (a + b) / 2).
  set (r := if mid <? m then mid else m).
  set (start0 := if mid <? m then mid + m - b else a).
  set (start := GoSort.search _ start0 r).
  assert (Hstart : r <= start).
  { apply search_always. intros. by rewrite Less_never. }
  assert (Hrot : (start <? m) && (m <? mid + m - start) = false).
  { unfold r in Hstart. destruct (Nat.ltb_spec mid m).
    - rewrite (proj2 (Nat.ltb_ge m (mid + m - start))) by lia.
      apply andb_false_r.
    - by rewrite (proj2 (Nat.ltb_ge start m)). }
  rewrite Hrot.
  destruct ((a <? start) && (start <? mid)); rewrite ?IH;
    destruct ((mid <? mid + m - start) && (mid + m - start <? b));
    by rewrite ?IH.
Qed.

Lemma mergePass_never (blockSize n : nat) :
  GoSort.mergePass less data blockSize n = data.
Proof.
  unfold GoSort.mergePass, GoSort.symMerge_func.
  rewrite fold_left_fixed by (intros; apply symMergeLoop_never).
  destruct (_ <? n); [apply symMergeLoop_never|done].
Qed.

Lemma mergePasses_never (turns blockSize n : nat) :
  GoSort.mergePasses less turns data blockSize n = data.
Proof.
  revert blockSize. induction turns as [|t IH]; intros blockSize; simpl; [done|].
  destruct (blockSize <? n); [|done]. by rewrite mergePass_never.
Qed.

(** With a comparator that holds of no element of the slice,
    [sort.SliceStable] leaves the slice in its order. *)
Lemma SliceStable_never : GoSort.SliceStable less data = data.
Proof.
  unfold GoSort.SliceStable, GoSort.stable_func.
  rewrite fold_left_fixed by (intros; apply insertionSort_never).
  by rewrite insertionSort_never, mergePasses_never.
Qed.
End Never.
End GoSortNeverLess.

(** ** The sort package: the insertion sort *)

Section GoSortInsertion.
Context {A : Type}.
Variable less : A -> A -> bool.

Lemma length_insertInto (x : A) (q : list A) :
  length (insertInto less x q) = S (length q).
Proof.
  induction q as [|y q IH]; simpl; [done|].
  destruct (less x y); simpl; by rewrite ?IH.
Qed.

Lemma Swap_adjacent (p s : list A) (x y : A) :
  GoSort.Swap (p ++ y :: x :: s) (S (length p)) (length p) = p ++ x :: y :: s.
Proof.
  unfold GoSort.Swap.
  rewrite (list_lookup_middle p (x :: s) y (length p)) by done.
  replace (p ++ y :: x :: s) with ((p ++ [y]) ++ x :: s) at 1
    by by rewrite <- app_assoc.
  rewrite (list_lookup_middle (p ++ [y]) s x (S (length p)))
    by (rewrite length_app; simpl; lia).
  rewrite (insert_app_r_alt p _ (length p)) by lia.
  rewrite Nat.sub_diag. simpl.
  rewrite (insert_app_r_alt p _ (S (length p))) by lia.
  by replace (S (length p) - length p) with 1 by lia.
Qed.

(** The inner loop moves the element at [length q] down the sorted prefix
    as [insertInto] does. *)
Lemma insertDown_insertInto (q s : list A) (x : A) :
  GoSort.insertDown less (reverse q ++ x :: s) 0 (length q)
  = reverse (insertInto less x q) ++ s.
Proof.
  revert s. induction q as [|y q IH]; intros s; simpl; [done|].
  assert (Hless : GoSort.Less less (reverse (y :: q) ++ x :: s) (S (length q)) (length q)
                  = less x y).
  { unfold GoSort.Less. rewrite reverse_cons, <- app_assoc. simpl.
    rewrite (list_lookup_middle (reverse q) (x :: s) y (length q))
      by by rewrite length_reverse.
    replace (reverse q ++ y :: x :: s) with ((reverse q ++ [y]) ++ x :: s)
      by by rewrite <- app_assoc.
    rewrite (list_lookup_middle (reverse q ++ [y]) s x (S (length q)))
      by (rewrite length_app, length_reverse; simpl; lia).
    done. }
  rewrite Hless. destruct (less x y).
  - rewrite reverse_cons, <- app_assoc. simpl.
    rewrite <- (length_reverse q) at 1 2. rewrite Swap_adjacent.
    rewrite IH.
    by rewrite reverse_cons, <- app_assoc.
  - by rewrite (reverse_cons (y :: q)), <- app_assoc.
Qed.

Lemma insertionLoop_insertInto (s q : list A) :
  fold_left (fun d i => GoSort.insertDown less d 0 i) (seq (length q) (length s))
    (reverse q ++ s)
  = reverse (fold_left (fun q x => insertInto less x q) s q).
Proof.
  revert q. induction s as [|x s IH]; intros q; simpl.
  - by rewrite app_nil_r.
  - rewrite insertDown_insertInto.
    rewrite <- (length_insertInto x q). apply IH.
Qed.

(** On the whole slice the insertion sort of the package is
    [insertionSorted]. *)
Lemma insertionSort_insertionSorted (l : list A) :
  GoSort.insertionSort_func less l 0 (length l) = insertionSorted less l.
Proof.
  unfold GoSort.insertionSort_func, insertionSorted.
  destruct l as [|x l]; [done|]. simpl. rewrite Nat.sub_0_r.
  apply (insertionLoop_insertInto l [x]).
Qed.

(** A slice of at most 20 elements is one block of [stable]. *)
Lemma SliceStable_insertionSorted (l : list A) :
  length l <= 20 -> GoSort.SliceStable less l = insertionSorted less l.
Proof.
  intros Hlen. rewrite <- insertionSort_insertionSorted.
  unfold GoSort.SliceStable, GoSort.stable_func.
  destruct (decide (length l = 20)) as [Heq|Hne].
  - rewrite Heq. change (20 / 20) with 1. cbn [seq fold_left].
    change (20 * 0) with 0. change (20 * (0 + 1)) with 20. change (20 * 1) with 20.
    unfold GoSort.insertionSort_func at 1. change (20 - (20 + 1)) with 0.
    cbn [seq fold_left]. cbn [GoSort.mergePasses].
    by rewrite Nat.ltb_irrefl.
  - rewrite (Nat.div_small (length l) 20) by lia. cbn [seq fold_left].
    change (20 * 0) with 0.
    destruct (length l) as [|n] eqn:Hn; [done|].
    cbn [GoSort.mergePasses].
    by rewrite (proj2 (Nat.ltb_ge 20 (S n))) by lia.
Qed.

Lemma Slice_insertionSorted (pdq : list A -> list A) (l : list A) :
  length l <= 12 -> GoSort.Slice less pdq l = insertionSorted less l.
Proof.
  intros Hlen. unfold GoSort.Slice.
  rewrite (proj2 (Nat.leb_le (length l) 12)) by done.
  apply insertionSort_insertionSorted.
Qed.

Lemma insertionSorted_Permutation (l : list A) : insertionSorted less l ≡ₚ l.
Proof.
  rewrite <- insertionSort_insertionSorted. apply insertionSort_Permutation.
Qed.

(** *** A comparator that splits the elements in two classes *)

Section Partition.
Variable P : A -> Prop.
Context `{!forall x, Decision (P x)}.
Hypothesis less_outside : forall x y, ~ P x -> less x y = false.
Hypothesis less_inside_outside : forall x y, P x -> ~ P y -> less x y = true.

Lemma insertInto_outside (x : A) (q : list A) :
  ~ P x -> insertInto less x q = x :: q.
Proof. intros Hx. destruct q as [|y q]; simpl; [done|]. by rewrite less_outside. Qed.

Lemma insertInto_inside (x : A) (qa qp : list A) :
  P x -> Forall (fun y => ~ P y) qa ->
  insertInto less x (qa ++ qp) = qa ++ insertInto less x qp.
Proof.
  intros Hx. induction 1 as [|y qa Hy _ IH]; simpl; [done|].
  by rewrite less_inside_outside, IH.
Qed.

Lemma insertionFold_partition (l qa qp : list A) :
  Forall (fun y => ~ P y) qa ->
  fold_left (fun q x => insertInto less x q) l (qa ++ qp)
  = (reverse (filter (fun x => ~ P x) l) ++ qa)
      ++ fold_left (fun q x => insertInto less x q) (filter P l) qp.
Proof.
  revert qa qp. induction l as [|x l IH]; intros qa qp Hqa; simpl; [done|].
  rewrite !filter_cons. destruct (decide (P x)) as [Hx|Hx].
  - rewrite decide_False by tauto. simpl.
    rewrite insertInto_inside by done. by apply IH.
  - rewrite decide_True by done. rewrite insertInto_outside by done.
    change (x :: qa ++ qp) with ((x :: qa) ++ qp).
    rewrite (IH (x :: qa) qp) by by constructor.
    by rewrite reverse_cons, <- !app_assoc.
Qed.

(** The elements of the first class come first, sorted among themselves;
    the others follow in their order. *)
Lemma insertionSorted_partition (l : list A) :
  insertionSorted less l
  = insertionSorted less (filter P l) ++ filter (fun x => ~ P x) l.
Proof.
  unfold insertionSorted.
  change (@nil A) with (@nil A ++ @nil A) at 1.
  rewrite (insertionFold_partition l [] []) by constructor.
  by rewrite app_nil_r, reverse_app, reverse_involutive.
Qed.
End Partition.
End GoSortInsertion.

(** ** The merge of the observed releases *)

Section RecordOnObject.
Implicit Types (r : observedReleases) (obj : HelmRelease).
Implicit Types (obs : Observation) (history : list Snapshot).

Lemma observeRelease_keyed r obs :
  keyedByVersion r -> keyedByVersion (observeRelease r obs).
Proof.
  intros Hr ver o. unfold observeRelease.
  destruct (decide (Version obs = ver)) as [<-|Hne].
  - rewrite lookup_insert_eq. by intros [= <-].
  - rewrite lookup_insert_ne by done. apply Hr.
Qed.

Lemma empty_keyed : keyedByVersion ∅.
Proof. intros ver o. by rewrite lookup_empty. Qed.

Lemma replaceTargeted_None obs history :
  replaceTargeted obs history = None <->
  Forall (fun snap => targetsObservation obs snap = false) history.
Proof.
  unfold targetsObservation. induction history as [|snap rest IH]; simpl.
  - split; [constructor|done].
  - destruct (Targets snap _ _ _) eqn:Ht.
    + split; [done|]. inversion 1; congruence.
    + rewrite fmap_None, IH. split.
      * by constructor.
      * by inversion 1.
Qed.

Lemma replaceTargeted_Some obs history history' :
  replaceTargeted obs history = Some history' <->
  exists i snap,
    history !! i = Some snap
    /\ targetsObservation obs snap = true
    /\ (forall j s, j < i -> history !! j = Some s ->
          targetsObservation obs s = false)
    /\ history' =
         <[i := SetTestHooks (ObservedToSnapshot obs) (GetTestHooks snap)]> history.
Proof.
  unfold targetsObservation. revert history'.
  induction history as [|snap rest IH]; intros history'; simpl.
  - split; [done|]. by intros (i & s & Hi & _).
  - destruct (Targets snap _ _ _) eqn:Ht.
    + split.
      * intros [= <-]. exists 0, snap. repeat split; try done. intros; lia.
      * intros (i & s & Hi & Hs & Hfirst & ->). destruct i as [|i]; simpl.
        { by simplify_eq/=. }
        specialize (Hfirst 0 snap ltac:(lia) eq_refl). congruence.
    + rewrite fmap_Some. split.
      * intros (h & Hh & ->). apply IH in Hh as (i & s & Hi & Hs & Hfirst & ->).
        exists (S i), s. repeat split; try done.
        intros [|j] s' Hj Hs'; simplify_eq/=; [done|].
        apply (Hfirst j); [lia|done].
      * intros (i & s & Hi & Hs & Hfirst & ->). destruct i as [|i]; simpl in *.
        { simplify_eq/=. congruence. }
        eexists. split; [|done]. apply IH. exists i, s. repeat split; try done.
        intros j s' Hj Hs'. apply (Hfirst (S j)); [lia|done].
  Qed.

(** A snapshot at the head that targets none of the versions stays at the
    head of the history. *)
Lemma recordRemaining_cons r versions top history :
  Forall (fun ver => targetsObservation (observedAt r ver) top = false) versions ->
  recordRemaining r versions (top :: history)
  = top :: recordRemaining r versions history.
Proof.
  induction 1 as [|ver rest Hv _ IH]; simpl; [done|].
  unfold targetsObservation in Hv. rewrite Hv.
  destruct (replaceTargeted _ history); simpl; [done|]. apply IH.
Qed.

Lemma recordRemaining_cases r versions history :
  (recordRemaining r versions history = history
   /\ Forall (fun ver =>
                Forall (fun snap =>
                          targetsObservation (observedAt r ver) snap = false)
                  history) versions)
  \/ (exists skipped ver later,
        versions = skipped ++ ver :: later
        /\ Forall (fun v =>
                     Forall (fun snap =>
                               targetsObservation (observedAt r v) snap = false)
                       history) skipped
        /\ replaceTargeted (observedAt r ver) history
           = Some (recordRemaining r versions history)).
Proof.
  induction versions as [|ver rest IH]; simpl.
  - left. by split.
  - destruct (replaceTargeted (observedAt r ver) history) as [h|] eqn:Hh.
    + right. exists [], ver, rest. by repeat split.
    + apply replaceTargeted_None in Hh.
      destruct IH as [[-> Hall]|(skipped & v & later & -> & Hsk & Hrep)].
      * left. split; [done|]. by constructor.
      * right. exists (ver :: skipped), v, later. repeat split; try done.
        by constructor.
Qed.

Lemma sortedVersions_Permutation r :
  sortedVersions r ≡ₚ (map_to_list r).*1.
Proof. apply merge_sort_Permutation. Qed.

Lemma sortedVersions_NoDup r : NoDup (sortedVersions r).
Proof.
  rewrite sortedVersions_Permutation. apply NoDup_fst_map_to_list.
Qed.

Lemma sortedVersions_elem_of r ver :
  ver ∈ sortedVersions r <-> is_Some (r !! ver).
Proof.
  rewrite sortedVersions_Permutation, list_elem_of_fmap. split.
  - intros ([k o] & -> & Hin). apply elem_of_map_to_list in Hin. by exists o.
  - intros [o Ho]. exists (ver, o). split; [done|]. by apply elem_of_map_to_list.
Qed.

Lemma sortedVersions_length r : length (sortedVersions r) = size r.
Proof.
  rewrite sortedVersions_Permutation, length_fmap. apply length_map_to_list.
Qed.

Lemma sortedVersions_descending r :
  StronglySorted (fun x y => (y < x)%Z) (sortedVersions r).
Proof.
  assert (Hs : StronglySorted (flip Z.le) (sortedVersions r)).
  { apply StronglySorted_merge_sort.
    - intros x y z; unfold flip; lia.
    - intros x y; unfold flip; lia. }
  pose proof (sortedVersions_NoDup r) as Hnd.
  induction Hs as [|x l Hl IH Hx]; [constructor|].
  apply NoDup_cons in Hnd as [Hnotin Hnd]. constructor; [by apply IH|].
  rewrite Forall_forall in Hx |- *. intros y Hy.
  specialize (Hx y Hy). unfold flip in Hx.
  assert (x <> y) by (intros ->; done). lia.
Qed.

Lemma observedAt_version r ver :
  keyedByVersion r -> ver ∈ sortedVersions r -> Version (observedAt r ver) = ver.
Proof.
  intros Hr [o Ho]%sortedVersions_elem_of. unfold observedAt. rewrite Ho. simpl.
  by apply Hr.
Qed.

Lemma size_one_singleton r :
  size r = 1 -> exists ver obs, r = {[ver := obs]}.
Proof.
  intros Hsz. destruct (map_to_list r) as [|[ver obs] [|kv rest]] eqn:Hl.
  - apply map_to_list_empty_iff in Hl. subst. by rewrite map_size_empty in Hsz.
  - exists ver, obs. rewrite <- (list_to_map_to_list r), Hl. simpl.
    by rewrite insert_empty.
  - rewrite <- length_map_to_list, Hl in Hsz. simpl in Hsz. lia.
Qed.

(** C6: merging the empty observed set leaves the object as it is; merging
    an observed set of one entry prepends the snapshot of that entry to the
    history, which grows by one and keeps every entry it had, in order. *)
Theorem recordOnObject_none_or_one r obj :
  (size r = 0 -> recordOnObject r obj = obj)
  /\ (size r = 1 ->
      exists ver obs,
        r = {[ver := obs]}
        /\ recordOnObject r obj
           = SetHistory obj (ObservedToSnapshot obs :: History (ObjStatus obj))
        /\ length (History (ObjStatus (recordOnObject r obj)))
           = S (length (History (ObjStatus obj)))
        /\ forall i, History (ObjStatus (recordOnObject r obj)) !! S i
                     = History (ObjStatus obj) !! i).
Proof.
  split.
  - intros Hsz. unfold recordOnObject. by rewrite Hsz.
  - intros Hsz. destruct (size_one_singleton r Hsz) as (ver & obs & ->).
    exists ver, obs. split; [done|].
    assert (Hrec : recordOnObject {[ver := obs]} obj
                   = SetHistory obj (ObservedToSnapshot obs :: History (ObjStatus obj))).
    { unfold recordOnObject. rewrite map_size_singleton, map_to_list_singleton.
      done. }
    rewrite Hrec. by repeat split.
Qed.

End RecordOnObject.

(** ** The conditions package *)

Section Conditions.
Implicit Types (obj : HelmRelease) (c d : Condition) (conds : list Condition).
Implicit Types (t : string).

Lemma hasType_true t c : conditions.hasType t c = true <-> Type_ c = t.
Proof. apply String.eqb_eq. Qed.

Lemma hasType_false t c : conditions.hasType t c = false <-> Type_ c <> t.
Proof. apply String.eqb_neq. Qed.

Lemma find_hasType conds t :
  List.find (conditions.hasType t) conds = head (ofType t conds).
Proof.
  unfold ofType. induction conds as [|c conds IH]; simpl; [done|].
  rewrite filter_cons. destruct (conditions.hasType t c) eqn:Hc.
  - apply hasType_true in Hc. by rewrite decide_True.
  - apply hasType_false in Hc. by rewrite decide_False.
Qed.

Lemma Get_ofType obj t :
  conditions.Get obj t = head (ofType t (GetConditions obj)).
Proof. apply find_hasType. Qed.

Lemma Get_Some_elem_of obj t c :
  conditions.Get obj t = Some c -> c ∈ GetConditions obj /\ Type_ c = t.
Proof.
  rewrite Get_ofType. intros Hh. apply head_Some_elem_of in Hh.
  by apply list_elem_of_filter in Hh as [? ?].
Qed.

Lemma Get_None obj t :
  conditions.Get obj t = None <-> Forall (fun c => Type_ c <> t) (GetConditions obj).
Proof.
  rewrite Get_ofType, head_None. unfold ofType. split.
  - intros Hnil. apply Forall_forall. intros c Hc Ht.
    by eapply (filter_nil_not_elem_of _ _ c Hnil).
  - intros Hall. induction Hall as [|c l Hc _ IH]; [done|].
    by rewrite filter_cons_False.
Qed.

Lemma GetConditions_Delete obj t :
  GetConditions (conditions.Delete obj t)
  = filter (fun c => Type_ c <> t) (GetConditions obj).
Proof. done. Qed.

Lemma Get_Delete_eq obj t : conditions.Get (conditions.Delete obj t) t = None.
Proof.
  apply Get_None. rewrite GetConditions_Delete. apply Forall_forall.
  by intros c [? _]%list_elem_of_filter.
Qed.

Lemma ofType_Delete_ne obj t t' :
  t <> t' ->
  ofType t' (GetConditions (conditions.Delete obj t)) = ofType t' (GetConditions obj).
Proof.
  intros Hne. rewrite GetConditions_Delete. unfold ofType.
  rewrite list_filter_filter. apply list_filter_iff. intros c. split.
  - by intros [? _].
  - intros <-. split; [done|]. congruence.
Qed.

Lemma Get_Delete_ne obj t t' :
  t <> t' -> conditions.Get (conditions.Delete obj t) t' = conditions.Get obj t'.
Proof. intros. by rewrite !Get_ofType, ofType_Delete_ne. Qed.

Lemma Delete_absent obj t :
  Forall (fun c => Type_ c <> t) (GetConditions obj) ->
  GetConditions (conditions.Delete obj t) = GetConditions obj.
Proof.
  rewrite GetConditions_Delete. induction 1 as [|c l Hc _ IH]; [done|].
  by rewrite filter_cons_True, IH.
Qed.

(** *** [Set] *)

Lemma setExisting_None now conds c :
  conditions.setExisting now conds c = None
  <-> Forall (fun d => Type_ d <> Type_ c) conds.
Proof.
  induction conds as [|d conds IH]; simpl.
  - split; [constructor|done].
  - destruct (String.eqb (Type_ d) (Type_ c)) eqn:Hd.
    + apply String.eqb_eq in Hd.
      split; [by destruct (conditions.hasSameState d c)|by inversion 1].
    + apply String.eqb_neq in Hd. rewrite fmap_None, IH. split.
      * by constructor.
      * by inversion 1.
Qed.

Lemma hasSameState_true c d :
  conditions.hasSameState c d = true <-> sameState c d.
Proof.
  unfold conditions.hasSameState, sameState.
  rewrite !andb_true_iff, !String.eqb_eq, bool_decide_eq_true, Z.eqb_eq. tauto.
Qed.

Lemma sameState_withTime c now : sameState (conditions.withTime c now) c.
Proof. by repeat split. Qed.

(** The condition that stands for [c] once [Set] has run: the existing
    one when it had the state of [c], and [c] otherwise. *)
Lemma setOrAppend_ofType_eq now conds c :
  exists c',
    sameState c' c
    /\ ofType (Type_ c) (conditions.setOrAppend now conds c)
       = c' :: tail (ofType (Type_ c) conds).
Proof.
  unfold conditions.setOrAppend, ofType.
  induction conds as [|d conds IH]; simpl.
  - destruct (LastTransitionTime c =? 0)%Z.
    + exists (conditions.withTime c now). split; [apply sameState_withTime|].
      by rewrite filter_cons_True.
    + exists c. split; [done|]. by rewrite filter_cons_True.
  - destruct (String.eqb (Type_ d) (Type_ c)) eqn:Hd.
    + apply String.eqb_eq in Hd.
      destruct (conditions.hasSameState d c) eqn:Hs.
      * exists d. split; [by apply hasSameState_true|].
        by rewrite !filter_cons_True.
      * exists (conditions.withTime c now). split; [apply sameState_withTime|].
        by rewrite !filter_cons_True.
    + apply String.eqb_neq in Hd.
      destruct IH as (c' & Hc' & IH). exists c'. split; [done|].
      rewrite (filter_cons_False _ d conds) by done.
      destruct (conditions.setExisting now conds c); simpl in *;
        by rewrite filter_cons_False.
Qed.

Lemma setOrAppend_ofType_ne now conds c t :
  t <> Type_ c ->
  ofType t (conditions.setOrAppend now conds c) = ofType t conds.
Proof.
  intros Ht. unfold conditions.setOrAppend, ofType.
  induction conds as [|d conds IH]; simpl.
  - rewrite filter_cons_False; [done|].
    by destruct (LastTransitionTime c =? 0)%Z.
  - destruct (String.eqb (Type_ d) (Type_ c)) eqn:Hd.
    + apply String.eqb_eq in Hd.
      destruct (conditions.hasSameState d c); [done|].
      rewrite !filter_cons_False; [done|congruence|simpl; congruence].
    + destruct (conditions.setExisting now conds c) eqn:Hex; simpl in *.
      * by rewrite !filter_cons, IH.
      * rewrite filter_cons, IH. by rewrite filter_cons.
Qed.

Lemma setOrAppend_elem_of now conds c x :
  x ∈ conditions.setOrAppend now conds c -> x ∈ conds \/ Type_ x = Type_ c.
Proof.
  intros Hx. destruct (decide (Type_ x = Type_ c)) as [|Hne]; [by right|left].
  assert (Hin : x ∈ ofType (Type_ x) (conditions.setOrAppend now conds c)).
  { by apply list_elem_of_filter. }
  rewrite setOrAppend_ofType_ne in Hin by done.
  by apply list_elem_of_filter in Hin as [_ ?].
Qed.

Lemma GetConditions_Set pdq now obj c :
  GetConditions (conditions.Set_ pdq now obj c)
  = GoSort.Slice conditions.lexicographicLess pdq
      (conditions.setOrAppend now (GetConditions obj)
         (conditions.withGeneration c (Generation obj))).
Proof. done. Qed.

Lemma Set_Permutation pdq now obj c :
  pdqPermutes pdq ->
  GetConditions (conditions.Set_ pdq now obj c)
  ≡ₚ conditions.setOrAppend now (GetConditions obj)
       (conditions.withGeneration c (Generation obj)).
Proof. intros Hp. rewrite GetConditions_Set. by apply Slice_Permutation. Qed.
End Conditions.

(** ** The order of the conditions *)

Section ConditionOrder.
Implicit Types (pdq : list Condition -> list Condition).

Lemma ltb_Lt (a b : string) : String.ltb a b = true <-> String.compare a b = Lt.
Proof. unfold String.ltb. destruct (String.compare a b); split; done. Qed.

Lemma ltb_irrefl (a : string) : String.ltb a a = false.
Proof.
  apply not_true_iff_false. rewrite ltb_Lt.
  pose proof (proj2 (String_as_OT.cmp_eq a a) eq_refl) as Heq.
  unfold String_as_OT.cmp in Heq. by rewrite Heq.
Qed.

Lemma ltb_trans (a b c : string) :
  String.ltb a b = true -> String.ltb b c = true -> String.ltb a c = true.
Proof.
  rewrite !ltb_Lt. intros Hab Hbc.
  apply (String_as_OT.cmp_lt a b) in Hab. apply (String_as_OT.cmp_lt b c) in Hbc.
  apply (String_as_OT.cmp_lt a c). by eapply String_as_OT.lt_trans.
Qed.

Lemma ltb_asym (a b : string) : String.ltb a b = true -> String.ltb b a = false.
Proof.
  intros Hab. apply not_true_iff_false. intros Hba.
  pose proof (ltb_trans a b a Hab Hba) as Haa. by rewrite ltb_irrefl in Haa.
Qed.

Lemma ltb_total (a b : string) :
  String.ltb a b = false -> String.ltb b a = false -> a = b.
Proof.
  unfold String.ltb. rewrite (String.compare_antisym b a).
  destruct (String.compare a b) eqn:Hc; simpl; try done.
  intros _ _. by apply String.compare_eq_iff.
Qed.

Lemma ltb_negtrans (a b c : string) :
  String.ltb a b = false -> String.ltb b c = false -> String.ltb a c = false.
Proof.
  intros Hab Hbc. apply not_true_iff_false. intros Hac.
  destruct (String.ltb b a) eqn:Hba.
  - by rewrite (ltb_trans b a c Hba Hac) in Hbc.
  - pose proof (ltb_total a b Hab Hba) as ->. congruence.
Qed.

Lemma lexicographicLess_spec x y :
  conditions.lexicographicLess x y = true
  <-> Type_ y <> ReadyCondition
      /\ (Type_ x = ReadyCondition \/ String.ltb (Type_ x) (Type_ y) = true).
Proof.
  unfold conditions.lexicographicLess.
  rewrite andb_true_iff, orb_true_iff, negb_true_iff, String.eqb_eq, String.eqb_neq.
  tauto.
Qed.

Lemma lexicographicLess_asym x y :
  conditions.lexicographicLess x y = true ->
  conditions.lexicographicLess y x = false.
Proof.
  intros [Hy Hx]%lexicographicLess_spec. apply not_true_iff_false.
  intros [Hx' Hy']%lexicographicLess_spec.
  destruct Hx as [Hx|Hx]; [done|]. destruct Hy' as [Hy'|Hy']; [done|].
  by rewrite (ltb_asym _ _ Hx) in Hy'.
Qed.

Lemma lexicographicLess_irrefl x : conditions.lexicographicLess x x = false.
Proof.
  apply not_true_iff_false. intros [Hx [Hx'|Hx']]%lexicographicLess_spec; [done|].
  by rewrite ltb_irrefl in Hx'.
Qed.

Lemma lexicographicLess_negtrans x y z :
  conditions.lexicographicLess x y = false ->
  conditions.lexicographicLess y z = false ->
  conditions.lexicographicLess x z = false.
Proof.
  unfold conditions.lexicographicLess.
  destruct (String.eqb (Type_ z) ReadyCondition); simpl;
    [intros _ _; apply andb_false_r|].
  rewrite !andb_true_r. intros Hxy [Hy Hyz]%orb_false_elim.
  rewrite Hy in Hxy. simpl in Hxy. rewrite andb_true_r in Hxy.
  apply orb_false_elim in Hxy as [Hx Hxy].
  rewrite Hx. simpl. by eapply ltb_negtrans.
Qed.

Lemma lexicographicLess_total x y :
  Type_ x <> Type_ y ->
  conditions.lexicographicLess y x = false ->
  conditions.lexicographicLess x y = true.
Proof.
  unfold conditions.lexicographicLess. intros Hne.
  destruct (String.eqb_spec (Type_ x) ReadyCondition) as [Hx|Hx];
    destruct (String.eqb_spec (Type_ y) ReadyCondition) as [Hy|Hy]; simpl;
    try done; try congruence.
  rewrite !andb_true_r. intros Hyx.
  destruct (String.ltb (Type_ x) (Type_ y)) eqn:Hxy; [done|].
  destruct Hne. by apply ltb_total.
Qed.

(** *** Sorted lists *)

Lemma StronglySorted_filter {A} (R : relation A) (P : A -> Prop)
    `{!forall a : A, Decision (P a)} (l : list A) :
  StronglySorted R l -> StronglySorted R (filter P l).
Proof.
  induction 1 as [|x l Hl IH Hx]; [constructor|].
  rewrite filter_cons. destruct (decide (P x)); [|done].
  constructor; [done|]. rewrite Forall_forall in Hx |- *.
  intros y [_ Hy]%list_elem_of_filter. by apply Hx.
Qed.

Lemma StronglySorted_reverse {A} (R : relation A) (l : list A) :
  StronglySorted R l -> StronglySorted (flip R) (reverse l).
Proof.
  induction 1 as [|x l Hl IH Hx]; [rewrite reverse_nil; constructor|].
  rewrite reverse_cons. apply StronglySorted_app. split; [|split]; [|done|].
  - intros y z Hy Hz. rewrite elem_of_reverse in Hy.
    rewrite list_elem_of_singleton in Hz. subst z.
    rewrite Forall_forall in Hx. unfold flip. by apply Hx.
  - repeat constructor.
Qed.

Section Insertion.
Context {A : Type}.
Variable less : A -> A -> bool.
Hypothesis less_asym : forall a b : A, less a b = true -> less b a = false.
Hypothesis less_negtrans :
  forall a b c : A, less a b = false -> less b c = false -> less a c = false.

Lemma insertInto_elem_of (x y : A) (q : list A) :
  y ∈ insertInto less x q -> y = x \/ y ∈ q.
Proof.
  induction q as [|z q IH]; simpl.
  - intros ->%list_elem_of_singleton. by left.
  - destruct (less x z).
    + intros [->|Hy]%elem_of_cons; [right; by left|].
      destruct (IH Hy) as [->|?]; [by left|right; by right].
    + intros [->|Hy]%elem_of_cons; [by left|by right].
Qed.

Lemma insertInto_sorted (x : A) (q : list A) :
  StronglySorted (fun a b => less a b = false) q ->
  StronglySorted (fun a b => less a b = false) (insertInto less x q).
Proof.
  induction 1 as [|y q Hq IH Hy]; simpl; [repeat constructor|].
  destruct (less x y) eqn:Hxy.
  - constructor; [done|]. rewrite Forall_forall in Hy |- *.
    intros z [->|Hz]%insertInto_elem_of; [by apply less_asym|by apply Hy].
  - constructor; [by constructor|]. constructor; [done|].
    rewrite Forall_forall in Hy |- *. intros z Hz.
    by apply (less_negtrans x y z); [|apply Hy].
Qed.

(** The insertion sort sorts: no element is less than one before it. *)
Lemma insertionSorted_sorted (l : list A) :
  StronglySorted (fun a b => less b a = false) (insertionSorted less l).
Proof.
  unfold insertionSorted.
  apply (StronglySorted_reverse (fun a b => less a b = false)).
  assert (Hfold : forall q,
             StronglySorted (fun a b => less a b = false) q ->
             StronglySorted (fun a b => less a b = false)
               (fold_left (fun q x => insertInto less x q) l q)).
  { induction l as [|x l IH]; intros q Hq; simpl; [done|].
    apply IH. by apply insertInto_sorted. }
  apply Hfold. constructor.
Qed.
End Insertion.

Lemma pdqInsertion_sorts : pdqSorts pdqInsertion.
Proof.
  intros l. unfold pdqInsertion. rewrite insertionSort_insertionSorted.
  apply insertionSorted_sorted.
  - apply lexicographicLess_asym.
  - apply lexicographicLess_negtrans.
Qed.

Lemma Slice_sorted pdq conds :
  pdqSorts pdq ->
  StronglySorted (fun x y => conditions.lexicographicLess y x = false)
    (GoSort.Slice conditions.lexicographicLess pdq conds).
Proof.
  intros Hpdq. unfold GoSort.Slice. destruct (length conds <=? 12); [|apply Hpdq].
  apply pdqInsertion_sorts.
Qed.

(** *** The canonical order *)

Lemma canonical_filter (P : Condition -> Prop) `{!forall a, Decision (P a)} l :
  canonical l -> canonical (filter P l).
Proof. apply StronglySorted_filter. Qed.

Lemma canonical_unique l1 l2 : canonical l1 -> canonical l2 -> l1 ≡ₚ l2 -> l1 = l2.
Proof.
  apply StronglySorted_unique. intros x y Hxy Hyx.
  by rewrite (lexicographicLess_asym x y Hxy) in Hyx.
Qed.

Lemma canonical_ofType l t : canonical l -> length (ofType t l) <= 1.
Proof.
  intros Hl. pose proof (canonical_filter (fun c => Type_ c = t) l Hl) as Hf.
  fold (ofType t l) in Hf.
  assert (Hty : Forall (fun c => Type_ c = t) (ofType t l)).
  { apply Forall_forall. by intros c [? _]%list_elem_of_filter. }
  destruct (ofType t l) as [|x [|y rest]]; simpl; [lia|lia|].
  apply StronglySorted_cons in Hf as [Hx _]. apply Forall_inv in Hx.
  apply lexicographicLess_spec in Hx as [Hy [Hx|Hx]].
  - apply Forall_inv in Hty as Hxt. apply Forall_inv_tail, Forall_inv in Hty.
    congruence.
  - apply Forall_inv in Hty as Hxt. apply Forall_inv_tail, Forall_inv in Hty.
    rewrite Hxt, Hty, ltb_irrefl in Hx. done.
Qed.

(** A sorted slice with no type twice is in the canonical order. *)
Lemma sorted_canonical l :
  (forall t, length (ofType t l) <= 1) ->
  StronglySorted (fun x y => conditions.lexicographicLess y x = false) l ->
  canonical l.
Proof.
  intros Hone Hl. induction Hl as [|x l Hl IH Hx]; [constructor|].
  constructor.
  - apply IH. intros t. specialize (Hone t). unfold ofType in *.
    rewrite filter_cons in Hone. destruct (decide (Type_ x = t)); simpl in *; lia.
  - rewrite Forall_forall in Hx |- *. intros y Hy.
    apply lexicographicLess_total; [|by apply Hx].
    intros Heq. specialize (Hone (Type_ x)). unfold ofType in Hone.
    rewrite filter_cons_True in Hone by done. simpl in Hone.
    assert (Hin : y ∈ filter (fun c => Type_ c = Type_ x) l).
    { by apply list_elem_of_filter. }
    destruct (filter (fun c => Type_ c = Type_ x) l); simpl in *;
      [by apply elem_of_nil in Hin|lia].
Qed.

(** In the canonical order a condition of type [Ready] is the first. *)
Lemma canonical_head_Ready l c :
  canonical l -> c ∈ l -> Type_ c = ReadyCondition -> head l = Some c.
Proof.
  intros Hl Hc Hty. destruct Hl as [|x l Hl Hx]; [by apply elem_of_nil in Hc|].
  apply elem_of_cons in Hc as [->|Hc]; [done|].
  rewrite Forall_forall in Hx. specialize (Hx c Hc).
  by apply lexicographicLess_spec in Hx as [? _].
Qed.
End ConditionOrder.

(** ** The remediation lifecycle *)

Section Remediation.
Implicit Types (obj : HelmRelease) (c : Condition).

Lemma conditionallyDeleteRemediated_cases obj :
  conditionallyDeleteRemediated obj = obj
  \/ conditionallyDeleteRemediated obj = conditions.Delete obj RemediatedCondition.
Proof.
  unfold conditionallyDeleteRemediated.
  repeat match goal with
         | |- context [match ?x with _ => _ end] => destruct x
         end; auto.
Qed.

Lemma Delete_Remediated_changes obj c :
  conditions.Get obj RemediatedCondition = Some c ->
  conditions.Delete obj RemediatedCondition <> obj.
Proof.
  intros Hget Heq. pose proof (Get_Delete_eq obj RemediatedCondition) as Hnone.
  rewrite Heq in Hnone. congruence.
Qed.

Lemma conditionallyDeleteRemediated_cleared obj :
  conditionallyDeleteRemediated obj
  = if remediationCleared obj
    then conditions.Delete obj RemediatedCondition
    else obj.
Proof.
  unfold conditionallyDeleteRemediated, remediationCleared.
  destruct (conditions.Get obj RemediatedCondition) as [remediated|]; [|done].
  destruct (conditions.Get obj ReleasedCondition) as [released|]; [|done].
  destruct (bool_decide (Status released = ConditionTrue)); simpl; [|done].
  destruct (negb (Enable (GetTest obj)) || IgnoreFailures (GetTest obj)); [done|].
  destruct (conditions.Get obj TestSuccessCondition) as [testSuccess|]; [|done].
  by destruct (bool_decide (Status testSuccess = ConditionTrue)).
Qed.

Lemma deleted_iff_cleared obj remediated :
  conditions.Get obj RemediatedCondition = Some remediated ->
  (conditionallyDeleteRemediated obj = conditions.Delete obj RemediatedCondition
   <-> remediationCleared obj = true)
  /\ (conditionallyDeleteRemediated obj = obj <-> remediationCleared obj = false).
Proof.
  intros Hrem. pose proof (Delete_Remediated_changes obj remediated Hrem) as Hne.
  rewrite conditionallyDeleteRemediated_cleared.
  destruct (remediationCleared obj); split; split; done.
Qed.

(** What the code of [conditionallyDeleteRemediated] decides, branch by
    branch: it leaves the object alone when it has no [Remediated]
    condition, and when it has no [Released] condition of status [True];
    with one, and testing disabled or failures ignored, it deletes
    [Remediated] exactly when the generation of [Released] is not below
    that of [Remediated]; with testing enabled and failures not ignored, it
    deletes [Remediated] exactly when there is a [TestSuccess] condition of
    status [True] whose generation is not below that of [Remediated]: the
    generation of [Released] is not read in that branch. *)
Theorem conditionallyDeleteRemediated_lifecycle obj :
  let deleted :=
    conditionallyDeleteRemediated obj = conditions.Delete obj RemediatedCondition in
  let kept := conditionallyDeleteRemediated obj = obj in
  (conditions.Get obj RemediatedCondition = None -> kept)
  /\ (forall remediated,
        conditions.Get obj RemediatedCondition = Some remediated ->
        (forall released,
           conditions.Get obj ReleasedCondition = Some released ->
           Status released <> ConditionTrue) ->
        kept)
  /\ (forall remediated released,
        conditions.Get obj RemediatedCondition = Some remediated ->
        conditions.Get obj ReleasedCondition = Some released ->
        Status released = ConditionTrue ->
        Enable (GetTest obj) = false \/ IgnoreFailures (GetTest obj) = true ->
        (deleted <->
           (ObservedGeneration remediated <= ObservedGeneration released)%Z)
        /\ (kept <->
              (ObservedGeneration released < ObservedGeneration remediated)%Z))
  /\ (forall remediated released,
        conditions.Get obj RemediatedCondition = Some remediated ->
        conditions.Get obj ReleasedCondition = Some released ->
        Status released = ConditionTrue ->
        Enable (GetTest obj) = true -> IgnoreFailures (GetTest obj) = false ->
        let tested :=
          exists testSuccess,
            conditions.Get obj TestSuccessCondition = Some testSuccess
            /\ Status testSuccess = ConditionTrue
            /\ (ObservedGeneration remediated
                  <= ObservedGeneration testSuccess)%Z in
        (deleted <-> tested) /\ (kept <-> ~ tested)).
Proof.
  cbv zeta. split; [|split; [|split]].
  - intros Hrem. rewrite conditionallyDeleteRemediated_cleared.
    unfold remediationCleared. by rewrite Hrem.
  - intros remediated Hrem Hrel. rewrite conditionallyDeleteRemediated_cleared.
    unfold remediationCleared. rewrite Hrem.
    destruct (conditions.Get obj ReleasedCondition) as [released|]; [|done].
    by rewrite bool_decide_eq_false_2 by by apply Hrel.
  - intros remediated released Hrem Hrel Hst Htest.
    destruct (deleted_iff_cleared obj remediated Hrem) as [-> ->].
    unfold remediationCleared. rewrite Hrem, Hrel, bool_decide_eq_true_2 by done.
    replace (negb (Enable (GetTest obj)) || IgnoreFailures (GetTest obj))
      with true by (destruct Htest as [-> | ->]; by rewrite ?orb_true_r).
    simpl. rewrite Z.leb_le, Z.leb_gt. done.
  - intros remediated released Hrem Hrel Hst Hen Hig.
    destruct (deleted_iff_cleared obj remediated Hrem) as [-> ->].
    unfold remediationCleared.
    rewrite Hrem, Hrel, bool_decide_eq_true_2, Hen, Hig by done. simpl.
    destruct (conditions.Get obj TestSuccessCondition) as [testSuccess|].
    + rewrite andb_true_iff, andb_false_iff, bool_decide_eq_true,
        bool_decide_eq_false, Z.leb_le, Z.leb_gt.
      split.
      * split; [intros [? ?]; by exists testSuccess|].
        by intros (ts & [= <-] & ? & ?).
      * split.
        -- intros Hno (ts & [= <-] & ? & ?). destruct Hno; [done|lia].
        -- intros Hno.
           destruct (decide (Status testSuccess = ConditionTrue)); [|by left].
           right. apply Z.lt_nge. intros Hle. apply Hno. by exists testSuccess.
    + split; split; try done.
      * by intros (ts & ? & _).
      * by intros _ (ts & ? & _).
Qed.
End Remediation.

(** ** The summary *)

Section Summarize.
Implicit Types (obj : HelmRelease) (c : Condition) (conds : list Condition).
Implicit Types (t : string) (pdq : list Condition -> list Condition).

Lemma SliceStable_nil {A} (less : A -> A -> bool) : GoSort.SliceStable less [] = [].
Proof. done. Qed.

Lemma SliceStable_length {A} (less : A -> A -> bool) (l : list A) :
  length (GoSort.SliceStable less l) = length l.
Proof. by rewrite SliceStable_Permutation. Qed.

Lemma Generation_Delete obj t : Generation (conditions.Delete obj t) = Generation obj.
Proof. done. Qed.

Lemma GetTest_Delete obj t : GetTest (conditions.Delete obj t) = GetTest obj.
Proof. done. Qed.

Lemma GetTest_conditionallyDeleteRemediated obj :
  GetTest (conditionallyDeleteRemediated obj) = GetTest obj.
Proof. by destruct (conditionallyDeleteRemediated_cases obj) as [-> | ->]. Qed.

Lemma Generation_summarizeInput obj : Generation (summarizeInput obj) = Generation obj.
Proof.
  unfold summarizeInput.
  destruct (conditionallyDeleteRemediated_cases
              (if negb (Enable (GetTest obj))
               then conditions.Delete obj TestSuccessCondition else obj))
    as [-> | ->]; by destruct (negb (Enable (GetTest obj))).
Qed.

Lemma History_summarizeInput obj :
  History (ObjStatus (summarizeInput obj)) = History (ObjStatus obj).
Proof.
  unfold summarizeInput.
  destruct (conditionallyDeleteRemediated_cases
              (if negb (Enable (GetTest obj))
               then conditions.Delete obj TestSuccessCondition else obj))
    as [-> | ->]; by destruct (negb (Enable (GetTest obj))).
Qed.

Lemma Spec_summarizeInput obj : Spec (summarizeInput obj) = Spec obj.
Proof.
  unfold summarizeInput.
  destruct (conditionallyDeleteRemediated_cases
              (if negb (Enable (GetTest obj))
               then conditions.Delete obj TestSuccessCondition else obj))
    as [-> | ->]; by destruct (negb (Enable (GetTest obj))).
Qed.

(** [summarize], read through the representative. *)
Lemma summarizeObject_representative pdq now obj :
  summarizeObject pdq now obj
  = match representative obj with
    | None => summarizeInput obj
    | Some c0 =>
        let obj3 := SetConditions (summarizeInput obj) (sortedConditions obj) in
        conditions.Set_ pdq now
          (if bool_decide (readyStatus c0 = ConditionTrue)
           then conditions.Delete obj3 StalledCondition
           else obj3)
          (readyOf obj c0)
    end.
Proof.
  unfold summarizeObject, representative, sortedConditions.
  fold (summarizeInput obj).
  destruct (GetConditions (summarizeInput obj)) as [|c conds] eqn:Hconds.
  - by rewrite SliceStable_nil.
  - by destruct (GoSort.SliceStable _ (c :: conds)).
Qed.

Lemma representative_None obj :
  representative obj = None <-> GetConditions (summarizeInput obj) = [].
Proof.
  unfold representative, sortedConditions. rewrite head_None. split.
  - intros Hnil. apply length_zero_iff_nil.
    by rewrite <- (SliceStable_length (summaryLess (sumConds obj))), Hnil.
  - intros ->. apply SliceStable_nil.
Qed.

Lemma representative_Some obj :
  GetConditions (summarizeInput obj) <> [] ->
  exists c0 rest, sortedConditions obj = c0 :: rest /\ representative obj = Some c0.
Proof.
  intros Hne. unfold representative.
  destruct (sortedConditions obj) as [|c0 rest] eqn:Hs.
  - destruct Hne. apply representative_None. unfold representative. by rewrite Hs.
  - by exists c0, rest.
Qed.

Lemma representative_elem_of obj c0 :
  representative obj = Some c0 -> c0 ∈ GetConditions (summarizeInput obj).
Proof.
  unfold representative, sortedConditions. intros Hh%head_Some_elem_of.
  by rewrite SliceStable_Permutation in Hh.
Qed.

(** The conditions that reach the sort are conditions of the object; none
    of them is [TestSuccess] when testing is disabled. *)
Lemma summarizeInput_elem_of obj x :
  x ∈ GetConditions (summarizeInput obj) ->
  x ∈ GetConditions obj
  /\ (Enable (GetTest obj) = false -> Type_ x <> TestSuccessCondition).
Proof.
  unfold summarizeInput.
  set (obj1 := if negb (Enable (GetTest obj)) then _ else _).
  assert (H1 : x ∈ GetConditions obj1 ->
               x ∈ GetConditions obj
               /\ (Enable (GetTest obj) = false -> Type_ x <> TestSuccessCondition)).
  { unfold obj1. destruct (Enable (GetTest obj)); simpl.
    - intros ?. by split.
    - rewrite GetConditions_Delete. intros [? ?]%list_elem_of_filter. by split. }
  destruct (conditionallyDeleteRemediated_cases obj1) as [-> | ->]; [done|].
  rewrite GetConditions_Delete. intros [_ ?]%list_elem_of_filter. by apply H1.
Qed.

Lemma summarizeInput_ofType obj t :
  t <> TestSuccessCondition -> t <> RemediatedCondition ->
  ofType t (GetConditions (summarizeInput obj)) = ofType t (GetConditions obj).
Proof.
  intros Ht1 Ht2. unfold summarizeInput.
  set (obj1 := if negb (Enable (GetTest obj)) then _ else _).
  assert (H1 : ofType t (GetConditions obj1) = ofType t (GetConditions obj)).
  { unfold obj1. destruct (negb (Enable (GetTest obj))); [|done].
    by apply ofType_Delete_ne. }
  destruct (conditionallyDeleteRemediated_cases obj1) as [-> | ->]; [done|].
  by rewrite ofType_Delete_ne.
Qed.

(** The conditions [summarize] leaves, type by type: the [Ready] condition
    it set, with the state of [readyOf], heads the conditions of type
    [Ready]; the other types keep the conditions that reached the sort,
    but for [Stalled] when [Ready] is [True]. *)
Lemma summarizeObject_conditions pdq now obj c0 :
  pdqPermutes pdq ->
  representative obj = Some c0 ->
  exists ready,
    sameState ready (readyOf obj c0)
    /\ ofType ReadyCondition (GetConditions (summarizeObject pdq now obj))
       ≡ₚ ready :: tail (ofType ReadyCondition (sortedConditions obj))
    /\ forall t,
         t <> ReadyCondition ->
         ofType t (GetConditions (summarizeObject pdq now obj))
         ≡ₚ if bool_decide (readyStatus c0 = ConditionTrue
                              /\ t = StalledCondition)
            then []
            else ofType t (GetConditions (summarizeInput obj)).
Proof.
  intros Hpdq Hrep. rewrite summarizeObject_representative, Hrep. cbv zeta.
  set (obj3 := SetConditions (summarizeInput obj) (sortedConditions obj)).
  set (obj4 := if bool_decide (readyStatus c0 = ConditionTrue) then _ else _).
  set (c := conditions.withGeneration (readyOf obj c0) (Generation obj4)).
  assert (Hc : c = readyOf obj c0).
  { unfold c, obj4, obj3. destruct (bool_decide _); simpl;
      by rewrite Generation_summarizeInput. }
  assert (Htc : Type_ c = ReadyCondition) by by rewrite Hc.
  destruct (setOrAppend_ofType_eq now (GetConditions obj4) c) as (ready & Hst & Heq).
  rewrite Htc in Heq.
  assert (Hset : forall t,
             ofType t (GetConditions (conditions.Set_ pdq now obj4 (readyOf obj c0)))
             ≡ₚ ofType t (conditions.setOrAppend now (GetConditions obj4) c)).
  { intros t. unfold ofType. by rewrite Set_Permutation. }
  assert (Hsorted : forall t,
             ofType t (sortedConditions obj)
             ≡ₚ ofType t (GetConditions (summarizeInput obj))).
  { intros t. unfold ofType, sortedConditions. by rewrite SliceStable_Permutation. }
  exists ready. split; [by rewrite <- Hc|]. split.
  - rewrite Hset, Heq.
    replace (ofType ReadyCondition (GetConditions obj4))
      with (ofType ReadyCondition (sortedConditions obj)); [done|].
    unfold obj4. destruct (bool_decide _); [|done].
    by rewrite ofType_Delete_ne.
  - intros t Ht. rewrite Hset, setOrAppend_ofType_ne by by rewrite Htc.
    unfold obj4.
    destruct (decide (readyStatus c0 = ConditionTrue)) as [Htrue|Hfalse].
    + rewrite (bool_decide_eq_true_2 _ Htrue).
      destruct (decide (t = StalledCondition)) as [->|Hns].
      * rewrite bool_decide_eq_true_2 by done.
        rewrite GetConditions_Delete. unfold ofType. rewrite list_filter_filter.
        generalize (GetConditions obj3). intros l.
        induction l as [|x l IH]; [done|].
        rewrite filter_cons_False by tauto. done.
      * rewrite bool_decide_eq_false_2 by tauto.
        rewrite ofType_Delete_ne by done. apply Hsorted.
    + rewrite (bool_decide_eq_false_2 _ Hfalse).
      rewrite bool_decide_eq_false_2 by tauto.
      apply Hsorted.
Qed.

Lemma ofType_nil_Get obj t :
  ofType t (GetConditions obj) = [] <-> conditions.Get obj t = None.
Proof. rewrite Get_ofType. by destruct (ofType t (GetConditions obj)). Qed.

Lemma History_summarizeObject pdq now obj :
  History (ObjStatus (summarizeObject pdq now obj)) = History (ObjStatus obj).
Proof.
  rewrite summarizeObject_representative.
  destruct (representative obj) as [c0|]; cbv zeta.
  - destruct (bool_decide (readyStatus c0 = ConditionTrue)); simpl;
      apply History_summarizeInput.
  - apply History_summarizeInput.
Qed.

Lemma Generation_summarizeObject pdq now obj :
  Generation (summarizeObject pdq now obj) = Generation obj.
Proof.
  rewrite summarizeObject_representative.
  destruct (representative obj) as [c0|]; cbv zeta.
  - destruct (bool_decide (readyStatus c0 = ConditionTrue)); simpl;
      apply Generation_summarizeInput.
  - apply Generation_summarizeInput.
Qed.

Lemma Spec_summarizeObject pdq now obj :
  Spec (summarizeObject pdq now obj) = Spec obj.
Proof.
  rewrite summarizeObject_representative.
  destruct (representative obj) as [c0|]; cbv zeta.
  - destruct (bool_decide (readyStatus c0 = ConditionTrue)); simpl;
      apply Spec_summarizeInput.
  - apply Spec_summarizeInput.
Qed.

(** C10: the merge writes the history and leaves the conditions, the
    generation and the specification as they are; the summary, with its
    deletion of [TestSuccess] and its remediation step, writes the
    conditions and leaves the history, the generation and the
    specification as they are. *)
Theorem status_frames (r : observedReleases) pdq (now : Time) (req : Request) :
  let obj := Object req in
  (Conditions (ObjStatus (recordOnObject r obj)) = Conditions (ObjStatus obj)
   /\ Generation (recordOnObject r obj) = Generation obj
   /\ Spec (recordOnObject r obj) = Spec obj)
  /\ (History (ObjStatus (Object (summarize pdq now req))) = History (ObjStatus obj)
      /\ Generation (Object (summarize pdq now req)) = Generation obj
      /\ Spec (Object (summarize pdq now req)) = Spec obj)
  /\ History (ObjStatus (conditions.Delete obj TestSuccessCondition))
     = History (ObjStatus obj)
  /\ History (ObjStatus (conditionallyDeleteRemediated obj))
     = History (ObjStatus obj).
Proof.
  cbv zeta. split; [|split; [|split]].
  - unfold recordOnObject. destruct (size r) as [|[|n]]; [done|done|].
    by destruct (sortedVersions r).
  - simpl. by rewrite History_summarizeObject, Generation_summarizeObject,
      Spec_summarizeObject.
  - done.
  - by destruct (conditionallyDeleteRemediated_cases (Object req)) as [-> | ->].
Qed.



(** *** The comparator *)

Lemma inStringSliceFrom_absent (pos : Z) (ss : list string) (str : string) :
  str ∉ ss -> inStringSliceFrom pos ss str = ((-1)%Z, false).
Proof.
  revert pos. induction ss as [|s0 ss IH]; intros pos Hnot; simpl; [done|].
  apply not_elem_of_cons in Hnot as [Hne Hnot].
  rewrite (proj2 (String.eqb_neq s0 str)) by done. by apply IH.
Qed.

Lemma inStringSliceFrom_present (pos : Z) (ss : list string) (str : string) :
  str ∈ ss ->
  exists k,
    inStringSliceFrom pos ss str = ((pos + Z.of_nat k)%Z, true)
    /\ ss !! k = Some str
    /\ forall j, j < k -> ss !! j <> Some str.
Proof.
  revert pos. induction ss as [|s0 ss IH]; intros pos Hin; simpl.
  - by apply elem_of_nil in Hin.
  - destruct (String.eqb_spec s0 str) as [->|Hne].
    + exists 0. rewrite Z.add_0_r. repeat split; try done. intros; lia.
    + apply elem_of_cons in Hin as [->|Hin]; [done|].
      destruct (IH (pos + 1)%Z Hin) as (k & Heq & Hk & Hfirst).
      exists (S k). rewrite Heq. repeat split; try done.
      * f_equal. lia.
      * intros [|j] Hj; simpl; [congruence|]. apply Hfirst. lia.
Qed.

Lemma inStringSlice_present (ss : list string) (str : string) :
  str ∈ ss ->
  exists k,
    inStringSlice ss str = (Z.of_nat k, true)
    /\ ss !! k = Some str
    /\ forall j, j < k -> ss !! j <> Some str.
Proof.
  intros Hin. destruct (inStringSliceFrom_present 0 ss str Hin) as (k & Heq & Hk).
  exists k. by rewrite Z.add_0_l in Heq.
Qed.

Lemma summaryLess_absent (list : list string) (ci cj : Condition) :
  Type_ ci ∉ list -> summaryLess list ci cj = false.
Proof.
  intros Hi. unfold summaryLess, inStringSlice.
  by rewrite (inStringSliceFrom_absent 0 list (Type_ ci) Hi).
Qed.

Lemma summaryLess_present_absent (list : list string) (ci cj : Condition) :
  Type_ ci ∈ list -> Type_ cj ∉ list -> summaryLess list ci cj = true.
Proof.
  intros Hi Hj. unfold summaryLess.
  destruct (inStringSlice_present list (Type_ ci) Hi) as (k & -> & _).
  unfold inStringSlice. by rewrite (inStringSliceFrom_absent 0 list (Type_ cj) Hj).
Qed.

Lemma summaryLess_present (list : list string) (ci cj : Condition) :
  Type_ ci ∈ list -> Type_ cj ∈ list ->
  summaryLess list ci cj
  = (ObservedGeneration cj <=? ObservedGeneration ci)%Z
    && ((inStringSlice list (Type_ ci)).1 <? (inStringSlice list (Type_ cj)).1)%Z.
Proof.
  intros Hi Hj. unfold summaryLess.
  destruct (inStringSlice_present list (Type_ ci) Hi) as (ki & -> & _).
  by destruct (inStringSlice_present list (Type_ cj) Hj) as (kj & -> & _).
Qed.

(** *** The [Ready] condition *)

Lemma readyStatus_cases c0 :
  (Type_ c0 = RemediatedCondition -> readyStatus c0 = ConditionFalse)
  /\ (Type_ c0 <> RemediatedCondition -> readyStatus c0 = Status c0).
Proof.
  unfold readyStatus. destruct (String.eqb_spec (Type_ c0) RemediatedCondition);
    by split.
Qed.

(** The [Ready] condition [summarize] sets is a condition of the object
    afterwards; it is the one [Get] finds when the object came with at
    most one condition of type [Ready]; and no [Stalled] condition is left
    when its status is [True]. *)
Lemma summarizeObject_ready pdq now obj c0 :
  pdqPermutes pdq ->
  representative obj = Some c0 ->
  exists ready,
    sameState ready (readyOf obj c0)
    /\ ready ∈ GetConditions (summarizeObject pdq now obj)
    /\ (length (ofType ReadyCondition (GetConditions obj)) <= 1 ->
        conditions.Get (summarizeObject pdq now obj) ReadyCondition = Some ready)
    /\ (readyStatus c0 = ConditionTrue ->
        conditions.Get (summarizeObject pdq now obj) StalledCondition = None).
Proof.
  intros Hpdq Hrep.
  destruct (summarizeObject_conditions pdq now obj c0 Hpdq Hrep)
    as (ready & Hst & Hready & Hother).
  exists ready. split; [done|]. split; [|split].
  - assert (Hin : ready ∈ ofType ReadyCondition
                            (GetConditions (summarizeObject pdq now obj))).
    { rewrite Hready. by left. }
    by apply list_elem_of_filter in Hin as [_ ?].
  - intros Hone. rewrite Get_ofType.
    assert (Hlen : length (ofType ReadyCondition (sortedConditions obj)) <= 1).
    { unfold ofType, sortedConditions. rewrite SliceStable_Permutation.
      fold (ofType ReadyCondition (GetConditions (summarizeInput obj))).
      by rewrite summarizeInput_ofType. }
    assert (Htail : tail (ofType ReadyCondition (sortedConditions obj)) = []).
    { destruct (ofType ReadyCondition (sortedConditions obj)) as [|x [|y l]];
        simpl in *; [done|done|lia]. }
    rewrite Htail in Hready. apply Permutation_singleton_r in Hready.
    by rewrite Hready.
  - intros Htrue. apply ofType_nil_Get. apply Permutation_nil_r.
    rewrite (Hother StalledCondition) by done.
    by rewrite bool_decide_eq_true_2.
Qed.

(** The position of a type in a list that holds no type twice is the
    position [inStringSlice] returns. *)
Lemma inStringSlice_lookup (ss : list string) (i : nat) (str : string) :
  NoDup ss -> ss !! i = Some str -> inStringSlice ss str = (Z.of_nat i, true).
Proof.
  intros Hnd Hi.
  destruct (inStringSlice_present ss str) as (k & Hk & Hlook & _).
  { by eapply list_elem_of_lookup_2. }
  by rewrite Hk, (NoDup_lookup ss k i str Hnd Hlook Hi).
Qed.

Lemma summaryLess_lookup (list : list string) (i j : nat) (ci cj : Condition) :
  NoDup list ->
  list !! i = Some (Type_ ci) -> list !! j = Some (Type_ cj) ->
  summaryLess list ci cj
  = (ObservedGeneration cj <=? ObservedGeneration ci)%Z && (i <? j).
Proof.
  intros Hnd Hi Hj. unfold summaryLess.
  rewrite (inStringSlice_lookup list i _ Hnd Hi).
  rewrite (inStringSlice_lookup list j _ Hnd Hj). simpl. f_equal.
  destruct (Nat.ltb_spec i j); [apply Z.ltb_lt|apply Z.ltb_ge]; lia.
Qed.

Lemma sumConds_NoDup obj : NoDup (sumConds obj).
Proof.
  unfold sumConds. destruct (_ && _); apply (bool_decide_unpack _); by vm_compute.
Qed.

(** C5: with testing disabled, no [TestSuccess] condition is left once
    [summarize] has run, whatever its status and generation were. The
    priority list of the sort is [Remediated, Released], unless testing is
    enabled and failures are not ignored, when it is [Remediated,
    TestSuccess, Released]: [summarize] sorts the conditions left after
    its deletions with the comparator of that list, [Ready] takes its
    status, reason and message from the first condition after that sort,
    and the comparator ranks by the list: a condition of a type the list
    does not hold sorts before none, one of a type the list holds sorts
    before every one of a type it does not hold, and of two conditions of
    types at the positions [i] and [j] of the list the first sorts before
    the second exactly when [i < j] and its generation is not the lower
    one. *)
Theorem summarize_tests_disabled pdq (now : Time) (req : Request) :
  pdqPermutes pdq ->
  let obj := Object req in
  let result := Object (summarize pdq now req) in
  let list :=
    if Enable (GetTest obj) && negb (IgnoreFailures (GetTest obj))
    then [RemediatedCondition; TestSuccessCondition; ReleasedCondition]
    else [RemediatedCondition; ReleasedCondition] in
  let reached :=
    GetConditions
      (conditionallyDeleteRemediated
         (if negb (Enable (GetTest obj))
          then conditions.Delete obj TestSuccessCondition
          else obj)) in
  (Enable (GetTest obj) = false ->
   conditions.Get result TestSuccessCondition = None
   /\ Forall (fun c => Type_ c <> TestSuccessCondition) (GetConditions result))
  /\ (Enable (GetTest obj) = true /\ IgnoreFailures (GetTest obj) = false ->
      sumConds obj
      = [RemediatedCondition; TestSuccessCondition; ReleasedCondition])
  /\ (Enable (GetTest obj) = false \/ IgnoreFailures (GetTest obj) = true ->
      sumConds obj = [RemediatedCondition; ReleasedCondition])
  /\ sortedConditions obj = GoSort.SliceStable (summaryLess list) reached
  /\ (forall c0,
        head (GoSort.SliceStable (summaryLess list) reached) = Some c0 ->
        exists ready,
          ready ∈ GetConditions result
          /\ Type_ ready = ReadyCondition
          /\ Status ready = readyStatus c0
          /\ Reason ready = Reason c0
          /\ Message ready = Message c0)
  /\ (forall ci cj, Type_ ci ∉ list -> summaryLess list ci cj = false)
  /\ (forall ci cj,
        Type_ ci ∈ list -> Type_ cj ∉ list -> summaryLess list ci cj = true)
  /\ (forall i j ci cj,
        list !! i = Some (Type_ ci) -> list !! j = Some (Type_ cj) ->
        summaryLess list ci cj
        = (ObservedGeneration cj <=? ObservedGeneration ci)%Z && (i <? j)).
Proof.
  intros Hpdq obj result list reached.
  change list with (sumConds obj).
  change reached with (GetConditions (summarizeInput obj)).
  change result with (summarizeObject pdq now obj).
  split; [|split; [|split; [|split; [|split; [|split; [|split]]]]]].
  - intros Hen.
    assert (Hin : ofType TestSuccessCondition (GetConditions (summarizeInput obj)) = []).
    { unfold ofType. generalize (summarizeInput_elem_of obj).
      induction (GetConditions (summarizeInput obj)) as [|x l IH]; [done|].
      intros Hl. rewrite filter_cons_False.
      - apply IH. intros y Hy. apply Hl. by right.
      - apply Hl; [by left|done]. }
    assert (Hout : conditions.Get (summarizeObject pdq now obj) TestSuccessCondition
                   = None).
    { apply ofType_nil_Get. destruct (representative obj) as [c0|] eqn:Hrep.
      - destruct (summarizeObject_conditions pdq now obj c0 Hpdq Hrep)
          as (ready & _ & _ & Hother).
        apply Permutation_nil_r. rewrite (Hother TestSuccessCondition) by done.
        rewrite bool_decide_eq_false_2 by (by intros [_ ?]). by rewrite Hin.
      - by rewrite summarizeObject_representative, Hrep. }
    split; [done|]. by apply Get_None.
  - intros [Hen Hig]. unfold sumConds. by rewrite Hen, Hig.
  - intros Htest. unfold sumConds.
    destruct Htest as [-> | ->]; [done|]. by rewrite andb_false_r.
  - done.
  - intros c0 Hhead.
    destruct (summarizeObject_ready pdq now obj c0 Hpdq Hhead)
      as (ready & (Hty & Hst & _ & Hr & Hm) & Hin & _).
    exists ready. by repeat split.
  - intros ci cj. apply summaryLess_absent.
  - intros ci cj. apply summaryLess_present_absent.
  - intros i j ci cj. apply summaryLess_lookup, sumConds_NoDup.
Qed.

(** C1, amended: for every object that still has a condition when
    [summarize] reaches the sort (a stale [TestSuccess] and a cleared
    [Remediated] being gone), the conditions are sorted by
    [sort.SliceStable] under the comparator in which a condition whose type
    is not in the priority list is less than none, a condition whose type
    is in the list is less than any whose type is not, and of two
    conditions in the list the first is less exactly when its generation is
    not below the other's and its position in the list is earlier; the
    first sorted condition is the representative, and the [Ready]
    condition that is set has [False] when the representative is
    [Remediated] and the status of the representative otherwise. That
    condition is among the conditions of the object afterwards, and it is
    the one [Get] returns when the object came with at most one condition
    of type [Ready]. *)
Theorem summarize_ready_status pdq (now : Time) (req : Request) :
  pdqPermutes pdq ->
  GetConditions (summarizeInput (Object req)) <> [] ->
  let obj := Object req in
  let list := sumConds obj in
  ((forall ci cj, Type_ ci ∉ list -> summaryLess list ci cj = false)
   /\ (forall ci cj,
         Type_ ci ∈ list -> Type_ cj ∉ list -> summaryLess list ci cj = true)
   /\ (forall ci cj,
         Type_ ci ∈ list -> Type_ cj ∈ list ->
         summaryLess list ci cj
         = (ObservedGeneration cj <=? ObservedGeneration ci)%Z
           && ((inStringSlice list (Type_ ci)).1
                 <? (inStringSlice list (Type_ cj)).1)%Z)
   /\ (forall t,
         t ∈ list ->
         exists k,
           inStringSlice list t = (Z.of_nat k, true)
           /\ list !! k = Some t /\ forall j, j < k -> list !! j <> Some t))
  /\ exists c0 rest ready,
       GoSort.SliceStable (summaryLess list) (GetConditions (summarizeInput obj))
       = c0 :: rest
       /\ c0 :: rest ≡ₚ GetConditions (summarizeInput obj)
       /\ ready ∈ GetConditions (Object (summarize pdq now req))
       /\ Type_ ready = ReadyCondition
       /\ (Type_ c0 = RemediatedCondition -> Status ready = ConditionFalse)
       /\ (Type_ c0 <> RemediatedCondition -> Status ready = Status c0)
       /\ (length (ofType ReadyCondition (GetConditions obj)) <= 1 ->
           conditions.Get (Object (summarize pdq now req)) ReadyCondition
           = Some ready).
Proof.
  intros Hpdq Hne obj list. split.
  - split; [apply summaryLess_absent|].
    split; [apply summaryLess_present_absent|].
    split; [apply summaryLess_present|apply inStringSlice_present].
  - destruct (representative_Some obj Hne) as (c0 & rest & Hsorted & Hrep).
    destruct (summarizeObject_ready pdq now obj c0 Hpdq Hrep)
      as (ready & (Hty & Hst & _) & Hin & Hget & _).
    destruct (readyStatus_cases c0) as [Hrem Hother].
    exists c0, rest, ready. simpl in Hst.
    split; [done|].
    split; [rewrite <- Hsorted; apply SliceStable_Permutation|].
    split; [done|]. split; [done|].
    split; [intros ?; rewrite Hst; by apply Hrem|].
    split; [intros ?; rewrite Hst; by apply Hother|done].
Qed.

(** C4, amended: for every object that still has a condition when
    [summarize] reaches the sort, the [Ready] condition that is set has the
    reason and the message of the representative and the generation of the
    object; and when its status is [True] no [Stalled] condition is
    left. That condition is among the conditions of the object afterwards,
    and it is the one [Get] returns when the object came with at most one
    condition of type [Ready]. *)
Theorem summarize_sets_ready pdq (now : Time) (req : Request) :
  pdqPermutes pdq ->
  GetConditions (summarizeInput (Object req)) <> [] ->
  let obj := Object req in
  exists c0 ready,
    representative obj = Some c0
    /\ ready ∈ GetConditions (Object (summarize pdq now req))
    /\ Type_ ready = ReadyCondition
    /\ Reason ready = Reason c0
    /\ Message ready = Message c0
    /\ ObservedGeneration ready = Generation obj
    /\ (length (ofType ReadyCondition (GetConditions obj)) <= 1 ->
        conditions.Get (Object (summarize pdq now req)) ReadyCondition
        = Some ready)
    /\ (Status ready = ConditionTrue ->
        conditions.Get (Object (summarize pdq now req)) StalledCondition = None
        /\ Forall (fun c => Type_ c <> StalledCondition)
             (GetConditions (Object (summarize pdq now req)))).
Proof.
  intros Hpdq Hne obj.
  destruct (representative_Some obj Hne) as (c0 & rest & Hsorted & Hrep).
  destruct (summarizeObject_ready pdq now obj c0 Hpdq Hrep)
    as (ready & (Hty & Hst & Hgen & Hreason & Hmsg) & Hin & Hget & Hstalled).
  exists c0, ready. simpl in *. repeat (split; [done|]).
  intros Htrue. rewrite Hst in Htrue. specialize (Hstalled Htrue).
  split; [done|]. by apply Get_None.
Qed.

(** *** Conditions outside the priority list *)

Lemma sumConds_elem_of obj t :
  t ∈ sumConds obj ->
  t = RemediatedCondition \/ t = TestSuccessCondition \/ t = ReleasedCondition.
Proof.
  unfold sumConds. destruct (_ && _); rewrite ?elem_of_cons, elem_of_nil; tauto.
Qed.

Lemma summarizeInput_without_summary obj :
  Forall (fun c => Type_ c <> RemediatedCondition
                   /\ Type_ c <> TestSuccessCondition
                   /\ Type_ c <> ReleasedCondition) (GetConditions obj) ->
  GetConditions (summarizeInput obj) = GetConditions obj.
Proof.
  intros Hall. unfold summarizeInput.
  set (obj1 := if negb (Enable (GetTest obj)) then _ else _).
  assert (H1 : GetConditions obj1 = GetConditions obj).
  { unfold obj1. destruct (negb (Enable (GetTest obj))); [|done].
    apply Delete_absent. eapply Forall_impl; [exact Hall|]. by intros c (_ & ? & _). }
  rewrite conditionallyDeleteRemediated_cleared. unfold remediationCleared.
  replace (conditions.Get obj1 RemediatedCondition) with (@None Condition); [done|].
  symmetry. apply Get_None. rewrite H1.
  eapply Forall_impl; [exact Hall|]. by intros c (? & _).
Qed.

(** C9: when the object has conditions and none of type [Remediated],
    [TestSuccess] or [Released], the sort leaves them in their order, and
    [summarize] sets [Ready] with the status, the reason and the message of
    the first of them; an object whose only condition is [Stalled] with
    status [True] ends with that condition deleted and with [Ready] alone,
    [True], with the reason and the message of [Stalled]. *)
Theorem summarize_without_summary_conditions pdq (now : Time) (req : Request)
    (c0 : Condition) (rest : list Condition) :
  pdqPermutes pdq ->
  GetConditions (Object req) = c0 :: rest ->
  Forall (fun c => Type_ c <> RemediatedCondition
                   /\ Type_ c <> TestSuccessCondition
                   /\ Type_ c <> ReleasedCondition) (c0 :: rest) ->
  let obj := Object req in
  GoSort.SliceStable (summaryLess (sumConds obj)) (GetConditions (summarizeInput obj))
  = c0 :: rest
  /\ (exists ready,
        ready ∈ GetConditions (Object (summarize pdq now req))
        /\ Type_ ready = ReadyCondition
        /\ Status ready = Status c0
        /\ Reason ready = Reason c0
        /\ Message ready = Message c0
        /\ (length (ofType ReadyCondition (GetConditions obj)) <= 1 ->
            conditions.Get (Object (summarize pdq now req)) ReadyCondition
            = Some ready))
  /\ (rest = [] -> Type_ c0 = StalledCondition -> Status c0 = ConditionTrue ->
      GetConditions (Object (summarize pdq now req))
      = [ {| Type_ := ReadyCondition;
             Status := ConditionTrue;
             ObservedGeneration := Generation obj;
             LastTransitionTime := now;
             Reason := Reason c0;
             Message := Message c0 |} ]).
Proof.
  intros Hpdq Hconds Hall obj.
  assert (Hin : GetConditions (summarizeInput obj) = c0 :: rest).
  { rewrite summarizeInput_without_summary; [done|]. unfold obj. by rewrite Hconds. }
  assert (Hsorted : sortedConditions obj = c0 :: rest).
  { unfold sortedConditions. rewrite Hin. apply SliceStable_never.
    eapply Forall_impl; [exact Hall|]. intros c (Hr & Ht & Hl) y.
    apply summaryLess_absent. intros Hc%sumConds_elem_of. tauto. }
  assert (Hrep : representative obj = Some c0).
  { unfold representative. by rewrite Hsorted. }
  assert (Hstatus : readyStatus c0 = Status c0).
  { apply readyStatus_cases. apply Forall_inv in Hall. tauto. }
  split; [exact Hsorted|]. split.
  - destruct (summarizeObject_ready pdq now obj c0 Hpdq Hrep)
      as (ready & (Hty & Hst & _ & Hreason & Hmsg) & Helem & Hget & _).
    exists ready. simpl in *. rewrite Hstatus in Hst. by repeat split.
  - intros -> Hty Htrue. simpl.
    rewrite summarizeObject_representative. fold obj. rewrite Hrep. cbv zeta.
    rewrite Hstatus, Htrue, bool_decide_eq_true_2 by done.
    rewrite GetConditions_Set, GetConditions_Delete, Generation_Delete.
    change (GetConditions (SetConditions (summarizeInput obj) (sortedConditions obj)))
      with (sortedConditions obj).
    change (Generation (SetConditions (summarizeInput obj) (sortedConditions obj)))
      with (Generation (summarizeInput obj)).
    rewrite Hsorted, filter_cons_False, filter_nil by (intros Hne; by apply Hne).
    rewrite Generation_summarizeInput.
    unfold conditions.setOrAppend, readyOf. simpl.
    by rewrite Hstatus, Htrue.
Qed.
End Summarize.

(** ** Summarizing twice *)

Section SummarizeTwice.
Implicit Types (obj : HelmRelease) (c : Condition) (conds : list Condition).
Implicit Types (t : string) (pdq : list Condition -> list Condition).

Lemma SetConditions_GetConditions obj : SetConditions obj (GetConditions obj) = obj.
Proof. by destruct obj as [g sp [cs h]]. Qed.

Lemma Delete_absent_object obj t :
  ofType t (GetConditions obj) = [] -> conditions.Delete obj t = obj.
Proof.
  intros Hnil.
  assert (Hsame : GetConditions (conditions.Delete obj t) = GetConditions obj).
  { apply Delete_absent. apply Forall_forall. intros c Hc Ht.
    by eapply (filter_nil_not_elem_of _ _ c Hnil). }
  rewrite GetConditions_Delete in Hsame. unfold conditions.Delete.
  rewrite Hsame. apply SetConditions_GetConditions.
Qed.

Lemma GetTest_Spec obj obj' : Spec obj = Spec obj' -> GetTest obj = GetTest obj'.
Proof. unfold GetTest. by intros ->. Qed.

Lemma remediationCleared_ext obj obj' :
  GetTest obj = GetTest obj' ->
  conditions.Get obj RemediatedCondition = conditions.Get obj' RemediatedCondition ->
  conditions.Get obj ReleasedCondition = conditions.Get obj' ReleasedCondition ->
  conditions.Get obj TestSuccessCondition = conditions.Get obj' TestSuccessCondition ->
  remediationCleared obj = remediationCleared obj'.
Proof. unfold remediationCleared. by intros -> -> -> ->. Qed.

Lemma remediationCleared_summarizeInput obj :
  remediationCleared (summarizeInput obj) = false.
Proof.
  unfold summarizeInput.
  set (obj1 := if negb (Enable (GetTest obj)) then _ else _).
  rewrite conditionallyDeleteRemediated_cleared.
  destruct (remediationCleared obj1) eqn:Hc; [|done].
  unfold remediationCleared. by rewrite Get_Delete_eq.
Qed.

(** An object with no stale [TestSuccess] and no cleared [Remediated]
    reaches the sort as it is. *)
Lemma summarizeInput_fixed obj :
  (Enable (GetTest obj) = false ->
   ofType TestSuccessCondition (GetConditions obj) = []) ->
  remediationCleared obj = false ->
  summarizeInput obj = obj.
Proof.
  intros Htest Hcleared. unfold summarizeInput.
  assert (H1 : (if negb (Enable (GetTest obj))
                then conditions.Delete obj TestSuccessCondition else obj) = obj).
  { destruct (Enable (GetTest obj)); simpl; [done|].
    by apply Delete_absent_object, Htest. }
  by rewrite H1, conditionallyDeleteRemediated_cleared, Hcleared.
Qed.

Lemma canonical_Delete obj t :
  canonical (GetConditions obj) -> canonical (GetConditions (conditions.Delete obj t)).
Proof. rewrite GetConditions_Delete. apply canonical_filter. Qed.

Lemma canonical_summarizeInput obj :
  canonical (GetConditions obj) -> canonical (GetConditions (summarizeInput obj)).
Proof.
  intros Hc. unfold summarizeInput.
  set (obj1 := if negb (Enable (GetTest obj)) then _ else _).
  assert (H1 : canonical (GetConditions obj1)).
  { unfold obj1. destruct (negb (Enable (GetTest obj))); [|done].
    by apply canonical_Delete. }
  destruct (conditionallyDeleteRemediated_cases obj1) as [-> | ->]; [done|].
  by apply canonical_Delete.
Qed.

Lemma length_Delete obj t :
  length (GetConditions (conditions.Delete obj t)) <= length (GetConditions obj).
Proof. rewrite GetConditions_Delete. apply length_filter. Qed.

Lemma length_summarizeInput obj :
  length (GetConditions (summarizeInput obj)) <= length (GetConditions obj).
Proof.
  unfold summarizeInput.
  set (obj1 := if negb (Enable (GetTest obj)) then _ else _).
  assert (H1 : length (GetConditions obj1) <= length (GetConditions obj)).
  { unfold obj1. destruct (negb (Enable (GetTest obj))); [|done].
    apply length_Delete. }
  destruct (conditionallyDeleteRemediated_cases obj1) as [-> | ->]; [done|].
  pose proof (length_Delete obj1 RemediatedCondition). lia.
Qed.

Lemma length_setOrAppend now conds c :
  length (conditions.setOrAppend now conds c) <= S (length conds).
Proof.
  unfold conditions.setOrAppend.
  destruct (conditions.setExisting now conds c) as [conds'|] eqn:Hset.
  - revert conds' Hset. induction conds as [|d conds IH]; intros conds'; simpl; [done|].
    destruct (String.eqb (Type_ d) (Type_ c)).
    + destruct (conditions.hasSameState d c); intros [= <-]; simpl; lia.
    + destruct (conditions.setExisting now conds c) as [r|]; simpl; [|done].
      intros [= <-]. specialize (IH r eq_refl). simpl. lia.
  - rewrite length_app. simpl. lia.
Qed.

(** [Set] leaves alone what a predicate selects, when the predicate
    selects no condition of the type that is set. *)
Lemma setOrAppend_filter (Q : Condition -> Prop) `{!forall d, Decision (Q d)}
    now conds c :
  (forall d, Type_ d = Type_ c -> ~ Q d) ->
  filter Q (conditions.setOrAppend now conds c) = filter Q conds.
Proof.
  intros HQ. unfold conditions.setOrAppend.
  induction conds as [|d conds IH]; simpl.
  - rewrite filter_cons_False; [done|].
    apply HQ. by destruct (LastTransitionTime c =? 0)%Z.
  - destruct (String.eqb_spec (Type_ d) (Type_ c)) as [Hd|Hd].
    + destruct (conditions.hasSameState d c); [done|].
      rewrite !filter_cons_False; [done|by apply HQ|by apply HQ].
    + destruct (conditions.setExisting now conds c) eqn:Hex; simpl in *.
      * by rewrite !filter_cons, IH.
      * rewrite filter_cons, IH. by rewrite filter_cons.
Qed.

Lemma Permutation_short {A} (l l' : list A) :
  l ≡ₚ l' -> length l' <= 1 -> l = l'.
Proof.
  intros Hp Hlen. destruct l' as [|x [|y l']]; simpl in Hlen; [| |lia].
  - by apply Permutation_nil_r.
  - by apply Permutation_singleton_r.
Qed.

Lemma sumConds_GetTest obj obj' : GetTest obj = GetTest obj' -> sumConds obj = sumConds obj'.
Proof. unfold sumConds. by intros ->. Qed.

Lemma Ready_not_summary obj : ReadyCondition ∉ sumConds obj.
Proof. intros [?|[?|?]]%sumConds_elem_of; discriminate. Qed.

Lemma Stalled_not_summary obj : StalledCondition ∉ sumConds obj.
Proof. intros [?|[?|?]]%sumConds_elem_of; discriminate. Qed.

(** The sort of [summarize] on at most 20 conditions: those of the
    priority list first, sorted among themselves, the others after them in
    their order. *)
Lemma sorted_partition (list : list string) conds :
  length conds <= 20 ->
  GoSort.SliceStable (summaryLess list) conds
  = insertionSorted (summaryLess list) (filter (fun c => Type_ c ∈ list) conds)
      ++ filter (fun c => ~ Type_ c ∈ list) conds.
Proof.
  intros Hlen. rewrite SliceStable_insertionSorted by done.
  apply (insertionSorted_partition (summaryLess list) (fun c => Type_ c ∈ list)).
  - intros x y. apply summaryLess_absent.
  - intros x y. apply summaryLess_present_absent.
Qed.

(** The object after one pass over conditions in the canonical order: the
    [Ready] condition that was set is its only one of that type, and the
    next pass finds the same representative, or that [Ready] condition
    itself when no condition has a type of the priority list. *)
Lemma summarize_second_pass pdq (now : Time) obj c0 :
  pdqPermutes pdq -> pdqSorts pdq ->
  canonical (GetConditions obj) -> length (GetConditions obj) <= 19 ->
  representative obj = Some c0 ->
  exists ready c0',
    sameState ready (readyOf obj c0)
    /\ conditions.Get (summarizeObject pdq now obj) ReadyCondition = Some ready
    /\ length (ofType ReadyCondition (GetConditions (summarizeObject pdq now obj))) <= 1
    /\ representative (summarizeObject pdq now obj) = Some c0'
    /\ (c0' = c0 \/ c0' = ready).
Proof.
  intros Hperm Hsorts Hcan Hlen Hrep.
  set (obj1 := summarizeObject pdq now obj).
  set (inp := summarizeInput obj). set (conds2 := GetConditions inp).
  assert (Hcan2 : canonical conds2) by by apply canonical_summarizeInput.
  assert (Hlen2 : length conds2 <= 19).
  { pose proof (length_summarizeInput obj). unfold conds2, inp. lia. }
  destruct (summarizeObject_conditions pdq now obj c0 Hperm Hrep)
    as (ready & Hst & Hready & Hother).
  fold obj1 in Hready, Hother. fold inp in Hother. fold conds2 in Hother.
  assert (Hsort : forall t, ofType t (sortedConditions obj) ≡ₚ ofType t conds2).
  { intros t. unfold ofType, sortedConditions. by rewrite SliceStable_Permutation. }
  assert (Htail : tail (ofType ReadyCondition (sortedConditions obj)) = []).
  { pose proof (canonical_ofType conds2 ReadyCondition Hcan2) as Hle.
    rewrite <- (Hsort ReadyCondition) in Hle.
    destruct (ofType ReadyCondition (sortedConditions obj)) as [|x [|y l]];
      simpl in *; [done|done|lia]. }
  rewrite Htail in Hready. apply Permutation_singleton_r in Hready.
  assert (Hsame : forall t,
             t <> ReadyCondition -> t <> StalledCondition ->
             ofType t (GetConditions obj1) = ofType t conds2).
  { intros t H1 H2. apply Permutation_short; [|by apply canonical_ofType].
    rewrite (Hother t H1). by rewrite bool_decide_eq_false_2 by tauto. }
  assert (Hone : forall t, length (ofType t (GetConditions obj1)) <= 1).
  { intros t. destruct (decide (t = ReadyCondition)) as [->|Hne];
      [by rewrite Hready|].
    rewrite (Hother t Hne). destruct (bool_decide _); [simpl; lia|].
    by apply canonical_ofType. }
  assert (Hobj1 : obj1
                  = conditions.Set_ pdq now
                      (if bool_decide (readyStatus c0 = ConditionTrue)
                       then conditions.Delete
                              (SetConditions inp (sortedConditions obj))
                              StalledCondition
                       else SetConditions inp (sortedConditions obj))
                      (readyOf obj c0)).
  { unfold obj1. by rewrite summarizeObject_representative, Hrep. }
  assert (Hcan1 : canonical (GetConditions obj1)).
  { apply sorted_canonical; [done|]. rewrite Hobj1, GetConditions_Set.
    by apply Slice_sorted. }
  assert (Htest1 : GetTest obj1 = GetTest obj).
  { apply GetTest_Spec, Spec_summarizeObject. }
  assert (HtestIn : GetTest inp = GetTest obj).
  { apply GetTest_Spec, Spec_summarizeInput. }
  assert (Hfix : summarizeInput obj1 = obj1).
  { apply summarizeInput_fixed.
    - rewrite Htest1. intros Hen. rewrite Hsame by done.
      destruct (ofType TestSuccessCondition conds2) as [|x l] eqn:Hx; [done|].
      assert (Hin : x ∈ ofType TestSuccessCondition conds2) by (rewrite Hx; by left).
      apply list_elem_of_filter in Hin as [Hty Hin].
      apply summarizeInput_elem_of in Hin as [_ Hno]. by destruct (Hno Hen).
    - rewrite (remediationCleared_ext obj1 inp).
      + apply remediationCleared_summarizeInput.
      + by rewrite Htest1, HtestIn.
      + by rewrite !Get_ofType, Hsame.
      + by rewrite !Get_ofType, Hsame.
      + by rewrite !Get_ofType, Hsame. }
  assert (Hsc : sumConds obj1 = sumConds obj) by by apply sumConds_GetTest.
  assert (Hlen1 : length (GetConditions obj1) <= 20).
  { rewrite Hobj1, Set_Permutation by done.
    etransitivity; [apply length_setOrAppend|]. apply le_n_S.
    assert (Hs : length (sortedConditions obj) <= 19).
    { unfold sortedConditions. by rewrite SliceStable_length. }
    destruct (bool_decide _); [|done].
    etransitivity; [apply length_Delete|done]. }
  set (P := fun c => Type_ c ∈ sumConds obj).
  assert (HP : filter P (GetConditions obj1) = filter P conds2).
  { apply canonical_unique; [by apply canonical_filter|by apply canonical_filter|].
    rewrite Hobj1, Set_Permutation by done.
    rewrite setOrAppend_filter.
    2:{ intros d Hd. simpl in Hd. unfold P. rewrite Hd. apply Ready_not_summary. }
    assert (Hs : filter P (sortedConditions obj) ≡ₚ filter P conds2).
    { unfold sortedConditions. by rewrite SliceStable_Permutation. }
    destruct (bool_decide _); [|done].
    rewrite GetConditions_Delete.
    change (GetConditions (SetConditions inp (sortedConditions obj)))
      with (sortedConditions obj).
    rewrite list_filter_filter, <- Hs. erewrite list_filter_iff; [done|].
    intros c. split; [tauto|]. intros Hc. split; [done|]. intros Heq.
    unfold P in Hc. rewrite Heq in Hc. by apply Stalled_not_summary in Hc. }
  assert (Hs0 : sortedConditions obj
                = insertionSorted (summaryLess (sumConds obj)) (filter P conds2)
                    ++ filter (fun c => ~ P c) conds2).
  { unfold sortedConditions. apply sorted_partition. fold inp conds2. lia. }
  assert (Hs1 : sortedConditions obj1
                = insertionSorted (summaryLess (sumConds obj)) (filter P conds2)
                    ++ filter (fun c => ~ P c) (GetConditions obj1)).
  { unfold sortedConditions. rewrite Hfix, Hsc, sorted_partition by done.
    fold P. by rewrite HP. }
  assert (Hty : Type_ ready = ReadyCondition) by apply Hst.
  assert (Hin : ready ∈ GetConditions obj1).
  { assert (Hr : ready ∈ ofType ReadyCondition (GetConditions obj1)).
    { rewrite Hready. by left. }
    by apply list_elem_of_filter in Hr as [_ ?]. }
  exists ready.
  destruct (filter P conds2) as [|p ps] eqn:Hp.
  - exists ready. split; [done|]. split; [by rewrite Get_ofType, Hready|].
    split; [done|]. split; [|by right].
    unfold representative. rewrite Hs1. change (insertionSorted _ []) with (@nil Condition).
    simpl. apply canonical_head_Ready; [by apply canonical_filter| |done].
    apply list_elem_of_filter. split; [|done].
    unfold P. rewrite Hty. apply Ready_not_summary.
  - exists c0. split; [done|]. split; [by rewrite Get_ofType, Hready|].
    split; [done|]. split; [|by left].
    unfold representative in *. rewrite Hs0 in Hrep. rewrite Hs1.
    pose proof (insertionSorted_Permutation (summaryLess (sumConds obj)) (p :: ps))
      as Hperm'.
    destruct (insertionSorted (summaryLess (sumConds obj)) (p :: ps)) as [|x l].
    + by apply Permutation_nil_cons in Hperm'.
    + done.
Qed.

(** C7, amended: on an object that holds at most 19 conditions in the
    order [Set] leaves them in ([Ready] first, the other types ascending,
    no type twice), a second [summarize] right after the first leaves the
    status, the reason, the message and the generation of [Ready] as the
    first set them. *)
Theorem summarize_twice pdq (now1 now2 : Time) (req : Request) :
  pdqPermutes pdq -> pdqSorts pdq ->
  canonical (GetConditions (Object req)) ->
  length (GetConditions (Object req)) <= 19 ->
  readyState (Object (summarize pdq now2 (summarize pdq now1 req)))
  = readyState (Object (summarize pdq now1 req)).
Proof.
  intros Hperm Hsorts Hcan Hlen. simpl. set (obj := Object req) in *.
  destruct (representative obj) as [c0|] eqn:Hrep.
  - destruct (summarize_second_pass pdq now1 obj c0 Hperm Hsorts Hcan Hlen Hrep)
      as (ready & c0' & Hst & Hget1 & Hone & Hrep1 & Hc0').
    destruct (summarizeObject_ready pdq now2 (summarizeObject pdq now1 obj) c0'
                Hperm Hrep1) as (ready2 & Hst2 & _ & Hget2 & _).
    specialize (Hget2 Hone). unfold readyState. rewrite Hget1, Hget2. simpl.
    destruct Hst as (Hty & Hs & Hg & Hr & Hm).
    destruct Hst2 as (Hty2 & Hs2 & Hg2 & Hr2 & Hm2). simpl in *.
    rewrite Generation_summarizeObject in Hg2.
    rewrite Hs, Hg, Hr, Hm, Hs2, Hg2, Hr2, Hm2.
    destruct Hc0' as [-> | ->]; [done|].
    unfold readyStatus at 1. rewrite Hty.
    change (String.eqb ReadyCondition RemediatedCondition) with false.
    by rewrite Hs, Hr, Hm.
  - assert (Hfirst : summarizeObject pdq now1 obj = summarizeInput obj).
    { by rewrite summarizeObject_representative, Hrep. }
    apply representative_None in Hrep.
    assert (Hfix : summarizeInput (summarizeInput obj) = summarizeInput obj).
    { apply summarizeInput_fixed.
      - by rewrite Hrep.
      - apply remediationCleared_summarizeInput. }
    rewrite Hfirst. rewrite summarizeObject_representative.
    replace (representative (summarizeInput obj)) with (@None Condition);
      [by rewrite Hfix|].
    symmetry. apply representative_None. by rewrite Hfix.
Qed.
End SummarizeTwice.

(** ** The event helpers *)

Section Events.
Variable Group : string.

Lemma append_inj_l (s a b : string) : (s ++ a = s ++ b)%string -> a = b.
Proof. induction s as [|ch s IH]; simpl; [done|]. intros [= H]. by apply IH. Qed.

Lemma eventMetaGroupKey_inj (key key' : string) :
  eventMetaGroupKey Group key = eventMetaGroupKey Group key' -> key = key'.
Proof.
  unfold eventMetaGroupKey. intros H%append_inj_l. by apply append_inj_l in H.
Qed.

Lemma eventMeta_keys_differ :
  eventMetaGroupKey Group MetaRevisionKey <> eventMetaGroupKey Group MetaTokenKey.
Proof. intros H%eventMetaGroupKey_inj. discriminate H. Qed.

(** C8: [eventMeta] returns the nil map when the revision and the token
    are both empty; otherwise a map that holds the revision under the
    group-prefixed revision key, the group, a slash and [revision], exactly
    when the revision is not empty, the token under the group-prefixed
    token key, the group, a slash and [token], exactly when the token is
    not empty, and nothing else, so that a revision alone gives a map of
    one entry.
    [eventMessageWithLog] returns the message as it is for a nil or empty
    buffer, and otherwise the message, then the header of two line feeds,
    [Last Helm logs:] and two line feeds, then the text of the buffer. *)
Theorem event_helpers (revision token msg : string) (log : option LogBuffer) :
  let revisionKey := (Group ++ "/revision")%string in
  let tokenKey := (Group ++ "/token")%string in
  (forall key, eventMetaGroupKey Group key = (Group ++ "/" ++ key)%string)
  /\ eventMeta Group "" "" = None
  /\ (revision <> ""%string \/ token <> ""%string ->
      exists metadata,
        eventMeta Group revision token = Some metadata
        /\ metadata !! revisionKey
           = (if decide (revision = ""%string) then None else Some revision)
        /\ metadata !! tokenKey
           = (if decide (token = ""%string) then None else Some token)
        /\ forall key,
             key <> revisionKey -> key <> tokenKey -> metadata !! key = None)
  /\ (eventMeta Group "v1" "" = Some {[revisionKey := "v1"%string]}
      /\ size ({[revisionKey := "v1"%string]} : gmap string string) = 1)
  /\ (log = None \/ (exists l, log = Some l /\ (Len l <= 0)%Z) ->
      eventMessageWithLog msg log = msg)
  /\ (forall l,
        log = Some l -> (0 < Len l)%Z ->
        eventMessageWithLog msg log = (msg ++ logHeader ++ LogString l)%string)
  /\ list_ascii_of_string logHeader
     = ([ascii_of_nat 10; ascii_of_nat 10]
          ++ list_ascii_of_string "Last Helm logs:"
          ++ [ascii_of_nat 10; ascii_of_nat 10])%list.
Proof.
  intros revisionKey tokenKey.
  change revisionKey with (eventMetaGroupKey Group MetaRevisionKey).
  change tokenKey with (eventMetaGroupKey Group MetaTokenKey).
  clear revisionKey tokenKey.
  set (revisionKey := eventMetaGroupKey Group MetaRevisionKey).
  set (tokenKey := eventMetaGroupKey Group MetaTokenKey).
  pose proof eventMeta_keys_differ as Hkeys.
  split; [done|]. split; [done|]. split; [|split; [|split; [|split]]].
  - intros Hne. unfold eventMeta.
    destruct (String.eqb_spec revision "") as [->|Hr];
      destruct (String.eqb_spec token "") as [->|Ht]; simpl.
    + by destruct Hne.
    + eexists. split; [done|]. fold tokenKey. split; [|split].
      * by rewrite lookup_insert_ne, lookup_empty by (by apply not_eq_sym).
      * rewrite lookup_insert_eq. by destruct (decide (token = ""%string)).
      * intros key _ Hk. by rewrite lookup_insert_ne, lookup_empty.
    + eexists. split; [done|]. fold revisionKey. split; [|split].
      * rewrite lookup_insert_eq. by destruct (decide (revision = ""%string)).
      * by rewrite lookup_insert_ne, lookup_empty.
      * intros key Hk _. by rewrite lookup_insert_ne, lookup_empty.
    + eexists. split; [done|]. fold revisionKey tokenKey. split; [|split].
      * rewrite lookup_insert_ne, lookup_insert_eq by (by apply not_eq_sym).
        by destruct (decide (revision = ""%string)).
      * rewrite lookup_insert_eq. by destruct (decide (token = ""%string)).
      * intros key Hk Hk'. by rewrite !lookup_insert_ne, lookup_empty.
  - split; [done|]. apply map_size_singleton.
  - intros [->|(l & -> & Hlen)]; [done|]. unfold eventMessageWithLog.
    by rewrite (proj2 (Z.ltb_ge 0 (Len l))).
  - intros l -> Hlen. unfold eventMessageWithLog.
    by rewrite (proj2 (Z.ltb_lt 0 (Len l))).
  - done.
Qed.
End Events.

(** ** The statements at sample objects *)

Lemma pdqInsertion_permutes : pdqPermutes pdqInsertion.
Proof. intros l. apply insertionSort_Permutation. Qed.

(** With only a stale [TestSuccess] and testing disabled, [summarize]
    deletes the condition and returns before the sort: no representative,
    no [Ready]. *)
Lemma summarize_stale_test_only :
  length (GetConditions staleTestObject) = 1
  /\ representative staleTestObject = None
  /\ GetConditions (Object (summarize pdqInsertion 100%Z {| Object := staleTestObject |}))
     = [].
Proof. by vm_compute. Qed.

(** The same with a failed test run and no test configuration at all. *)
Lemma summarize_failed_test_only :
  length (GetConditions failedTestObject) = 1
  /\ conditions.Get
       (Object (summarize pdqInsertion 100%Z {| Object := failedTestObject |}))
       ReadyCondition = None.
Proof. by vm_compute. Qed.

Lemma summarize_ready_status_remediated :
  exists ready,
    conditions.Get
      (Object (summarize pdqInsertion 100%Z {| Object := remediatedObject |}))
      ReadyCondition = Some ready
    /\ Status ready = ConditionFalse.
Proof.
  destruct (summarize_ready_status pdqInsertion 100%Z {| Object := remediatedObject |}
              pdqInsertion_permutes)
    as (_ & c0 & rest & ready & Hsorted & _ & _ & _ & Hrem & _ & Hget).
  { vm_compute. discriminate. }
  exists ready. split.
  - apply Hget. vm_compute. lia.
  - apply Hrem. vm_compute in Hsorted. by injection Hsorted as <- _.
Defined.

Lemma summarize_sets_ready_remediated :
  exists ready,
    conditions.Get
      (Object (summarize pdqInsertion 100%Z {| Object := remediatedObject |}))
      ReadyCondition = Some ready
    /\ ObservedGeneration ready = 6%Z.
Proof.
  destruct (summarize_sets_ready pdqInsertion 100%Z {| Object := remediatedObject |}
              pdqInsertion_permutes)
    as (c0 & ready & _ & _ & _ & _ & _ & Hgen & Hget & _).
  { vm_compute. discriminate. }
  exists ready. split.
  - apply Hget. vm_compute. lia.
  - exact Hgen.
Defined.

Lemma summarize_tests_disabled_stale :
  conditions.Get
    (Object (summarize pdqInsertion 100%Z {| Object := staleTestObject |}))
    TestSuccessCondition = None.
Proof.
  apply (summarize_tests_disabled pdqInsertion 100%Z {| Object := staleTestObject |}
           pdqInsertion_permutes).
  reflexivity.
Defined.

Lemma summarize_stalled_only :
  GetConditions (Object (summarize pdqInsertion 100%Z {| Object := stalledObject |}))
  = [ {| Type_ := ReadyCondition;
         Status := ConditionTrue;
         ObservedGeneration := 4%Z;
         LastTransitionTime := 100%Z;
         Reason := "RetriesExceeded"%string;
         Message := "gave up"%string |} ].
Proof.
  refine (proj2 (proj2
            (summarize_without_summary_conditions pdqInsertion 100%Z
               {| Object := stalledObject |} _ [] pdqInsertion_permutes
               eq_refl _)) eq_refl eq_refl eq_refl).
  repeat constructor; discriminate.
Defined.



(** With [Remediated] ahead of [Released] in the slice and the generation
    of [Remediated] the lower one, the first pass takes [Remediated] for the
    representative; [Set] then puts [Released] ahead, and the second pass
    takes [Released]: the reason and the message of [Ready] change, and its
    status too when [Released] is [True]. *)
Lemma summarize_twice_differs :
  readyState
    (Object (summarize pdqInsertion 100%Z {| Object := failedUpgradeObject |}))
  = Some (ConditionFalse, "RollbackSucceeded"%string, "rolled back"%string, 2%Z)
  /\ readyState
       (Object (summarize pdqInsertion 101%Z
                  (summarize pdqInsertion 100%Z {| Object := failedUpgradeObject |})))
     = Some (ConditionFalse, "UpgradeFailed"%string, "upgrade failed"%string, 2%Z)
  /\ readyState
       (Object (summarize pdqInsertion 100%Z {| Object := untestedObject |}))
     = Some (ConditionFalse, "RollbackSucceeded"%string, "rolled back"%string, 2%Z)
  /\ readyState
       (Object (summarize pdqInsertion 101%Z
                  (summarize pdqInsertion 100%Z {| Object := untestedObject |})))
     = Some (ConditionTrue, "UpgradeSucceeded"%string, "upgraded"%string, 2%Z).
Proof. by vm_compute. Qed.

(** Beyond one block of [sort.SliceStable] the order [Set] keeps is not
    enough: with 21 conditions in that order the first pass leaves
    [Released] ahead of [Remediated] and [TestSuccess], and the second, with
    [Ready] in the slice, merges it in behind them. *)
Lemma summarize_twice_differs_crowded :
  length (GetConditions crowdedObject) = 21
  /\ readyState
       (Object (summarize pdqInsertion 100%Z {| Object := crowdedObject |}))
     = Some (ConditionTrue, "UpgradeSucceeded"%string, "upgraded"%string, 2%Z)
  /\ readyState
       (Object (summarize pdqInsertion 101%Z
                  (summarize pdqInsertion 100%Z {| Object := crowdedObject |})))
     = Some (ConditionFalse, "RollbackSucceeded"%string, "rolled back"%string, 2%Z).
Proof. by vm_compute. Qed.

Lemma crowdedObject_canonical : canonical (GetConditions crowdedObject).
Proof.
  apply sorted_canonical.
  - intros t. unfold ofType.
    assert (Hnd : NoDup (Type_ <$> GetConditions crowdedObject)).
    { apply (bool_decide_unpack _). by vm_compute. }
    induction (GetConditions crowdedObject) as [|x l IH]; [simpl; lia|].
    rewrite fmap_cons in Hnd. apply NoDup_cons in Hnd as [Hx Hl].
    rewrite filter_cons. destruct (decide (Type_ x = t)) as [<-|]; [|by apply IH].
    replace (filter (fun c => Type_ c = Type_ x) l) with (@nil Condition);
      [simpl; lia|].
    symmetry. clear IH. induction l as [|y l IH]; [done|].
    rewrite fmap_cons in Hx, Hl. apply not_elem_of_cons in Hx as [Hne Hx].
    apply NoDup_cons in Hl as [_ Hl]. rewrite filter_cons_False by done.
    by apply IH.
  - replace (GetConditions crowdedObject)
      with (pdqInsertion (GetConditions crowdedObject)) by by vm_compute.
    apply pdqInsertion_sorts.
Qed.

Lemma remediatedObject_canonical : canonical (GetConditions remediatedObject).
Proof. repeat constructor. Qed.

Lemma summarize_twice_remediated :
  readyState
    (Object (summarize pdqInsertion 101%Z
               (summarize pdqInsertion 100%Z {| Object := remediatedObject |})))
  = readyState
      (Object (summarize pdqInsertion 100%Z {| Object := remediatedObject |})).
Proof.
  apply (summarize_twice pdqInsertion 100%Z 101%Z {| Object := remediatedObject |}
           pdqInsertion_permutes pdqInsertion_sorts remediatedObject_canonical).
  vm_compute. lia.
Defined.

(** C3: with testing enabled and failures not ignored,
    [conditionallyDeleteRemediated] deletes [Remediated] although the
    generation of [Released] is below that of [Remediated]: released at
    generation 2, remediated at generation 3 and tested at generation 3,
    the [Remediated] condition is gone, and [summarize] sets [Ready] to
    [True]. The branch reads the generation of [TestSuccess] only; the
    branch for disabled tests reads that of [Released]. *)
Lemma conditionallyDeleteRemediated_older_release :
  exists remediated released testSuccess,
    conditions.Get olderReleaseObject RemediatedCondition = Some remediated
    /\ conditions.Get olderReleaseObject ReleasedCondition = Some released
    /\ conditions.Get olderReleaseObject TestSuccessCondition = Some testSuccess
    /\ Enable (GetTest olderReleaseObject) = true
    /\ IgnoreFailures (GetTest olderReleaseObject) = false
    /\ Status released = ConditionTrue
    /\ Status testSuccess = ConditionTrue
    /\ (ObservedGeneration released < ObservedGeneration remediated)%Z
    /\ (ObservedGeneration remediated <= ObservedGeneration testSuccess)%Z
    /\ conditionallyDeleteRemediated olderReleaseObject
       = conditions.Delete olderReleaseObject RemediatedCondition
    /\ conditions.Get (conditionallyDeleteRemediated olderReleaseObject)
         RemediatedCondition = None
    /\ readyState
         (Object (summarize pdqInsertion 100%Z {| Object := olderReleaseObject |}))
       = Some (ConditionTrue, "TestSucceeded"%string, "tests passed"%string, 3%Z).
Proof.
  eexists _, _, _. split; [reflexivity|]. split; [reflexivity|].
  split; [reflexivity|]. by vm_compute.
Qed.

(** ** Further properties *)

(** *** The observed set of an action and its record *)

Section ObservedReleases.
Implicit Types (r : observedReleases) (obj : HelmRelease).
Implicit Types (obs : Observation) (history : list Snapshot).

Lemma observeAll_lookup (writes : list Observation) r ver :
  observeAll r writes !! ver
  = match lastWrite ver writes with
    | Some obs => Some obs
    | None => r !! ver
    end.
Proof.
  unfold observeAll, lastWrite. revert r.
  induction writes as [|obs writes IH]; intros r; simpl; [done|].
  rewrite IH, filter_cons. unfold observeRelease.
  destruct (decide (Version obs = ver)) as [<-|Hne].
  - rewrite lookup_insert_eq.
    rewrite last_cons. by destruct (last (filter _ writes)).
  - by rewrite lookup_insert_ne.
Qed.

Lemma observeAll_keyed (writes : list Observation) r :
  keyedByVersion r -> keyedByVersion (observeAll r writes).
Proof.
  unfold observeAll. revert r. induction writes as [|obs writes IH]; intros r Hr;
    simpl; [done|].
  by apply IH, observeRelease_keyed.
Qed.

Lemma observeAll_size (writes : list Observation) r :
  size (observeAll r writes) <= size r + length writes.
Proof.
  unfold observeAll. revert r.
  induction writes as [|obs l IH]; intros r; simpl; [lia|].
  specialize (IH (observeRelease r obs)).
  assert (size (observeRelease r obs) <= S (size r)); [|lia].
  unfold observeRelease. rewrite map_size_insert.
  destruct (r !! Version obs); simpl; lia.
Qed.

Lemma lastWrite_Some ver (writes : list Observation) obs :
  lastWrite ver writes = Some obs -> obs ∈ writes /\ Version obs = ver.
Proof.
  unfold lastWrite. intros Hl.
  assert (Hin : obs ∈ filter (fun o => Version o = ver) writes).
  { apply last_Some in Hl as [l' ->]. apply elem_of_app. right. by left. }
  apply list_elem_of_filter in Hin. tauto.
Qed.

Lemma lastWrite_None ver (writes : list Observation) :
  lastWrite ver writes = None <-> Forall (fun o => Version o <> ver) writes.
Proof.
  unfold lastWrite. rewrite last_None. split.
  - intros Hnil. apply Forall_forall. intros o Ho Hv.
    by eapply (filter_nil_not_elem_of _ _ o Hnil).
  - intros Hall. induction Hall as [|o l Ho _ IH]; [done|].
    by rewrite filter_cons_False.
Qed.

Lemma observeAll_empty_lookup (writes : list Observation) ver :
  observeAll ∅ writes !! ver = lastWrite ver writes.
Proof.
  rewrite observeAll_lookup, lookup_empty. by destruct (lastWrite ver writes).
Qed.

Lemma observeAll_empty_dom (writes : list Observation) ver :
  is_Some (observeAll ∅ writes !! ver) <-> ver ∈ Version <$> writes.
Proof.
  rewrite observeAll_empty_lookup, list_elem_of_fmap. split.
  - intros [obs [Hin Hv]%lastWrite_Some]. by exists obs.
  - intros (obs & -> & Hin). destruct (lastWrite (Version obs) writes) eqn:Hw;
      [done|].
    apply lastWrite_None in Hw. rewrite Forall_forall in Hw.
    by destruct (Hw obs Hin).
Qed.

(** After the observer has seen the writes of an action, the set holds
    under every version that was written the last observation of that
    version, and under the other versions what it held before: a later
    write of a version replaces the earlier one, whatever the order of the
    versions. Every observation stays under its own version, the set grows
    by at most one entry for each write, and a set that was empty holds
    exactly the versions written. *)
Theorem observeAll_last_write (observed : observedReleases)
    (writes : list Observation) :
  (forall ver,
     observeAll observed writes !! ver
     = match lastWrite ver writes with
       | Some obs => Some obs
       | None => observed !! ver
       end)
  /\ (keyedByVersion observed -> keyedByVersion (observeAll observed writes))
  /\ size (observeAll observed writes) <= size observed + length writes
  /\ (forall ver, is_Some (observeAll ∅ writes !! ver) <-> ver ∈ Version <$> writes)
  /\ (forall obs ver,
        observeRelease observed obs !! ver
        = if decide (ver = Version obs) then Some obs else observed !! ver).
Proof.
  split; [intros ver; apply observeAll_lookup|].
  split; [apply observeAll_keyed|]. split; [apply observeAll_size|].
  split; [apply observeAll_empty_dom|].
  intros obs ver. unfold observeRelease.
  destruct (decide (ver = Version obs)) as [->|Hne].
  - apply lookup_insert_eq.
  - by apply lookup_insert_ne.
Qed.

(** [sortedVersions] returns the versions of the observed set, each of
    them once, the highest first. *)
Theorem sortedVersions_spec r :
  (forall ver, ver ∈ sortedVersions r <-> is_Some (r !! ver))
  /\ NoDup (sortedVersions r)
  /\ StronglySorted (fun x y => (y < x)%Z) (sortedVersions r)
  /\ length (sortedVersions r) = size r.
Proof.
  split; [apply sortedVersions_elem_of|]. split; [apply sortedVersions_NoDup|].
  split; [apply sortedVersions_descending|apply sortedVersions_length].
Qed.

Lemma sameEntry_refl (snap : Snapshot) : sameEntry snap snap.
Proof. by repeat split. Qed.

Lemma Forall2_sameEntry_refl history : Forall2 sameEntry history history.
Proof. apply Forall_Forall2_diag, Forall_forall. intros x _. apply sameEntry_refl. Qed.

Lemma sameEntry_replaced obs (snap : Snapshot) :
  targetsObservation obs snap = true ->
  sameEntry snap (SetTestHooks (ObservedToSnapshot obs) (GetTestHooks snap)).
Proof.
  unfold targetsObservation, Targets. rewrite !andb_true_iff.
  intros [[Hn Hns] Hv]. apply String.eqb_eq in Hn. apply String.eqb_eq in Hns.
  apply Z.eqb_eq in Hv. by repeat split.
Qed.

(** The loop over the remaining versions rewrites at most one snapshot,
    which keeps its identity and its marker. *)
Lemma recordRemaining_replaces r (versions : list Z) history :
  recordRemaining r versions history = history
  \/ exists i snap new,
       history !! i = Some snap
       /\ sameEntry snap new
       /\ recordRemaining r versions history = <[i := new]> history.
Proof.
  destruct (recordRemaining_cases r versions history)
    as [[Heq _]|(skipped & ver & later & _ & _ & Hrep)]; [by left|right].
  apply replaceTargeted_Some in Hrep as (i & snap & Hi & Hs & _ & Hh).
  exists i, snap, (SetTestHooks (ObservedToSnapshot (observedAt r ver))
                     (GetTestHooks snap)).
  split; [done|]. split; [by apply sameEntry_replaced|done].
Qed.

Lemma Forall2_sameEntry_insert history i (snap new : Snapshot) :
  history !! i = Some snap -> sameEntry snap new ->
  Forall2 sameEntry history (<[i := new]> history).
Proof.
  intros Hi Hs. rewrite <- (list_insert_id history i snap) at 1 by done.
  apply Forall2_insert; [apply Forall2_sameEntry_refl|done].
Qed.

(** Whatever the observed set holds, [recordOnObject] never drops, moves
    or re-identifies an entry of the history: the new history is the old
    one below one added snapshot (none for the empty set), every old entry
    is still the entry of the same release with the same test-hooks marker,
    and at most one of them was rewritten. *)
Theorem recordOnObject_history r obj :
  let old := History (ObjStatus obj) in
  exists added kept,
    History (ObjStatus (recordOnObject r obj)) = (added ++ kept)%list
    /\ length added = (if decide (size r = 0) then 0 else 1)
    /\ Forall2 sameEntry old kept
    /\ exists i, forall j, j <> i -> kept !! j = old !! j.
Proof.
  cbv zeta. set (old := History (ObjStatus obj)).
  pose proof (Forall2_sameEntry_refl old) as Hrefl.
  unfold recordOnObject. pose proof (sortedVersions_length r) as Hlen.
  destruct (size r) as [|[|n]] eqn:Hsz.
  - exists [], old. repeat split; try done. by exists 0.
  - eexists [_], old. simpl. repeat split; try done. by exists 0.
  - destruct (sortedVersions r) as [|ver0 rest]; [simpl in Hlen; lia|].
    simpl. fold old.
    set (top := ObservedToSnapshot (observedAt r ver0)).
    destruct (recordRemaining_replaces r rest (top :: old))
      as [->|(i & snap & new & Hi & Hs & ->)].
    + exists [top], old. repeat split; try done. by exists 0.
    + destruct i as [|i]; simpl in *.
      * exists [new], old. repeat split; try done. by exists 0.
      * exists [top], (<[i := new]> old). repeat split; try done.
        { by eapply Forall2_sameEntry_insert. }
        exists i. intros j Hj. by apply list_lookup_insert_ne.
Qed.

(** The observer and the record together: after an action that wrote at
    least one release, the head of the history is the snapshot of the
    highest version written, in the state of its last write, and below it
    every entry of the old history is still the entry of the same release
    with the same marker. *)
Theorem observed_then_recorded (write : Observation) (writes : list Observation) obj :
  let observed := observeAll ∅ (write :: writes) in
  exists obs rest,
    lastWrite (Version obs) (write :: writes) = Some obs
    /\ Forall (fun o => (Version o <= Version obs)%Z) (write :: writes)
    /\ History (ObjStatus (recordOnObject observed obj))
       = ObservedToSnapshot obs :: rest
    /\ Forall2 sameEntry (History (ObjStatus obj)) rest.
Proof.
  cbv zeta. set (all := write :: writes). set (r := observeAll ∅ all).
  set (old := History (ObjStatus obj)).
  assert (Hkey : keyedByVersion r) by apply observeAll_keyed, empty_keyed.
  pose proof (observeAll_empty_lookup all) as Hlook.
  pose proof (observeAll_empty_dom all) as Hdom.
  fold r in Hlook, Hdom.
  pose proof (Forall2_sameEntry_refl old) as Hrefl.
  pose proof (sortedVersions_length r) as Hlen.
  pose proof (sortedVersions_descending r) as Hdesc.
  pose proof (sortedVersions_NoDup r) as Hnd.
  pose proof (fun ver => sortedVersions_elem_of r ver) as Hin.
  destruct (sortedVersions r) as [|ver0 rest] eqn:Hsv.
  { assert (Hw : is_Some (r !! Version write)).
    { apply Hdom. apply list_elem_of_fmap. exists write. split; [done|by left]. }
    apply Hin in Hw. by apply elem_of_nil in Hw. }
  assert (H0 : is_Some (r !! ver0)) by (apply Hin; by left).
  destruct H0 as [obs Hobs].
  assert (Hv : Version obs = ver0) by by apply Hkey.
  assert (Hmax : Forall (fun o => (Version o <= Version obs)%Z) all).
  { apply Forall_forall. intros o Ho.
    assert (Hk : Version o ∈ ver0 :: rest).
    { apply Hin, Hdom, list_elem_of_fmap. by exists o. }
    apply elem_of_cons in Hk as [->|Hk]; [lia|].
    apply StronglySorted_cons in Hdesc as [Hlt _].
    rewrite Forall_forall in Hlt. specialize (Hlt _ Hk). lia. }
  assert (Hat : observedAt r ver0 = obs) by (unfold observedAt; by rewrite Hobs).
  destruct rest as [|ver1 rest].
  - exists obs, old. split; [by rewrite <- Hlook, Hv|]. split; [done|].
    split; [|done]. unfold recordOnObject. simpl in Hlen. rewrite <- Hlen.
    destruct (size_one_singleton r (eq_sym Hlen)) as (ver & o & Hr).
    rewrite Hr, map_to_list_singleton. simpl.
    rewrite Hr, lookup_singleton_Some in Hobs. by destruct Hobs as [_ ->].
  - assert (Htop : Forall (fun ver =>
                     targetsObservation (observedAt r ver)
                       (ObservedToSnapshot obs) = false) (ver1 :: rest)).
    { apply Forall_forall. intros ver Hver.
      unfold targetsObservation, Targets, ObservedToSnapshot. simpl.
      rewrite (observedAt_version r ver Hkey) by (rewrite Hsv; by right).
      apply NoDup_cons in Hnd as [Hnotin _].
      assert (ver0 <> ver) by (intros ->; done).
      rewrite Hv, (proj2 (Z.eqb_neq ver0 ver)) by done. by rewrite andb_false_r. }
    destruct (recordRemaining_replaces r (ver1 :: rest) old)
      as [Heq|(i & snap & new & Hi & Hs & Heq)].
    + exists obs, old. split; [by rewrite <- Hlook, Hv|]. split; [done|].
      split; [|done]. unfold recordOnObject. rewrite Hsv. simpl in Hlen.
      rewrite <- Hlen. cbv beta iota zeta. fold old. rewrite Hat.
      by rewrite recordRemaining_cons, Heq.
    + exists obs, (<[i := new]> old). split; [by rewrite <- Hlook, Hv|].
      split; [done|]. split; [|by eapply Forall2_sameEntry_insert].
      unfold recordOnObject. rewrite Hsv. simpl in Hlen.
      rewrite <- Hlen. cbv beta iota zeta. fold old. rewrite Hat.
      by rewrite recordRemaining_cons, Heq.
Qed.
End ObservedReleases.

(** *** The deletions and the frame of the summary *)

Section SummarizeFurther.
Implicit Types (obj : HelmRelease) (c : Condition) (conds : list Condition).
Implicit Types (t : string) (pdq : list Condition -> list Condition).
Implicit Types (req : Request).

(** [conditionallyDeleteRemediated] reaches its result in one call, a
    second call changes nothing; it leaves the conditions of every other
    type, the test configuration and the generation as they were, and
    deletes the conditions of type [Remediated] all at once or not at
    all. *)
Theorem conditionallyDeleteRemediated_idempotent obj :
  let obj' := conditionallyDeleteRemediated obj in
  conditionallyDeleteRemediated obj' = obj'
  /\ (forall t, t <> RemediatedCondition ->
        ofType t (GetConditions obj') = ofType t (GetConditions obj))
  /\ (ofType RemediatedCondition (GetConditions obj') = []
      \/ GetConditions obj' = GetConditions obj)
  /\ GetTest obj' = GetTest obj /\ Generation obj' = Generation obj.
Proof.
  cbv zeta. rewrite (conditionallyDeleteRemediated_cleared obj).
  destruct (remediationCleared obj) eqn:Hc.
  - split.
    { unfold conditionallyDeleteRemediated. by rewrite Get_Delete_eq. }
    split; [intros t Ht; by apply ofType_Delete_ne|].
    split; [|done]. left. apply ofType_nil_Get, Get_Delete_eq.
  - split; [by rewrite conditionallyDeleteRemediated_cleared, Hc|].
    split; [done|]. split; [by right|done].
Qed.

(** [summarize] leaves the object without [Ready] exactly when no
    condition reaches the sort; the object is then left without any
    condition, and an object that had none is returned as it was. *)
Theorem summarize_no_ready pdq (now : Time) req :
  pdqPermutes pdq ->
  let obj := Object req in
  (conditions.Get (Object (summarize pdq now req)) ReadyCondition = None
   <-> GetConditions (summarizeInput obj) = [])
  /\ (GetConditions (summarizeInput obj) = [] ->
      GetConditions (Object (summarize pdq now req)) = [])
  /\ (GetConditions obj = [] -> Object (summarize pdq now req) = obj).
Proof.
  intros Hperm. simpl. set (obj := Object req).
  assert (Hnil : GetConditions (summarizeInput obj) = [] ->
                 summarizeObject pdq now obj = summarizeInput obj).
  { intros Hn. apply representative_None in Hn.
    by rewrite summarizeObject_representative, Hn. }
  split; [|split].
  - split.
    + intros Hget. destruct (representative obj) as [c0|] eqn:Hrep;
        [|by apply representative_None].
      destruct (summarizeObject_ready pdq now obj c0 Hperm Hrep)
        as (ready & Hst & Hin & _).
      rewrite Get_None, Forall_forall in Hget. destruct (Hget ready Hin).
      apply Hst.
    + intros Hn. rewrite (Hnil Hn). apply ofType_nil_Get. by rewrite Hn.
  - intros Hn. by rewrite (Hnil Hn).
  - intros Hn.
    assert (Hin : GetConditions (summarizeInput obj) = []).
    { pose proof (length_summarizeInput obj) as Hl. rewrite Hn in Hl.
      destruct (GetConditions (summarizeInput obj)); [done|simpl in Hl; lia]. }
    rewrite (Hnil Hin). apply summarizeInput_fixed.
    + by rewrite Hn.
    + unfold remediationCleared, conditions.Get. by rewrite Hn.
Qed.

Lemma remediationCleared_test_disabled obj :
  remediationCleared
    (if negb (Enable (GetTest obj))
     then conditions.Delete obj TestSuccessCondition else obj)
  = remediationCleared obj.
Proof.
  destruct (Enable (GetTest obj)) eqn:He; simpl; [done|].
  unfold remediationCleared. rewrite GetTest_Delete, He. simpl.
  rewrite !Get_Delete_ne by discriminate. done.
Qed.

Lemma summarizeInput_Remediated obj :
  ofType RemediatedCondition (GetConditions (summarizeInput obj))
  = if remediationCleared obj then []
    else ofType RemediatedCondition (GetConditions obj).
Proof.
  unfold summarizeInput. rewrite conditionallyDeleteRemediated_cleared.
  rewrite remediationCleared_test_disabled.
  destruct (remediationCleared obj).
  - apply ofType_nil_Get, Get_Delete_eq.
  - destruct (negb (Enable (GetTest obj))); [|done].
    apply ofType_Delete_ne. discriminate.
Qed.

(** What [summarize] does to the conditions it does not set: those of a
    type other than [Ready], [Stalled], [Remediated] and [TestSuccess] are
    the same before and after; so are those of [TestSuccess] while testing
    is enabled; those of [Remediated] are deleted when the remediation is
    cleared and kept otherwise; and those of [Stalled] are kept unless the
    status given to [Ready] is [True]. *)
Theorem summarize_other_types pdq (now : Time) req :
  pdqPermutes pdq ->
  let obj := Object req in
  let conds := GetConditions obj in
  let conds' := GetConditions (Object (summarize pdq now req)) in
  (forall t,
     t <> ReadyCondition -> t <> StalledCondition ->
     t <> RemediatedCondition -> t <> TestSuccessCondition ->
     ofType t conds' ≡ₚ ofType t conds)
  /\ (Enable (GetTest obj) = true ->
      ofType TestSuccessCondition conds' ≡ₚ ofType TestSuccessCondition conds)
  /\ ofType RemediatedCondition conds'
     ≡ₚ (if remediationCleared obj then []
         else ofType RemediatedCondition conds)
  /\ ((forall c0, representative obj = Some c0 -> readyStatus c0 <> ConditionTrue) ->
      ofType StalledCondition conds' ≡ₚ ofType StalledCondition conds).
Proof.
  intros Hperm. simpl. set (obj := Object req).
  set (conds := GetConditions obj).
  set (conds' := GetConditions (summarizeObject pdq now obj)).
  assert (Hres : forall t,
            t <> ReadyCondition ->
            (forall c0, representative obj = Some c0 ->
                        readyStatus c0 = ConditionTrue -> t <> StalledCondition) ->
            ofType t conds' ≡ₚ ofType t (GetConditions (summarizeInput obj))).
  { intros t Hr Hs. unfold conds'.
    destruct (representative obj) as [c0|] eqn:Hrep.
    - destruct (summarizeObject_conditions pdq now obj c0 Hperm Hrep)
        as (ready & _ & _ & Hother).
      rewrite (Hother t Hr), bool_decide_eq_false_2; [done|].
      intros [Hst Ht]. by apply (Hs c0).
    - by rewrite summarizeObject_representative, Hrep. }
  assert (Hin : forall t,
            t <> RemediatedCondition ->
            t <> TestSuccessCondition \/ Enable (GetTest obj) = true ->
            ofType t (GetConditions (summarizeInput obj)) = ofType t conds).
  { intros t Hm Ht. unfold summarizeInput.
    set (obj1 := if negb (Enable (GetTest obj)) then _ else _).
    assert (H1 : ofType t (GetConditions obj1) = ofType t conds).
    { unfold obj1. destruct (Enable (GetTest obj)) eqn:He; simpl; [done|].
      apply ofType_Delete_ne. intros <-. by destruct Ht. }
    rewrite <- H1.
    destruct (conditionallyDeleteRemediated_cases obj1) as [-> | ->]; [done|].
    apply ofType_Delete_ne. congruence. }
  split; [|split; [|split]].
  - intros t Hr Hs Hm Ht. rewrite Hres by done. rewrite Hin; [done|done|by left].
  - intros He. rewrite Hres by (intros; discriminate).
    rewrite Hin; [done|discriminate|by right].
  - rewrite Hres by (intros; discriminate). by rewrite summarizeInput_Remediated.
  - intros Hnot. rewrite Hres; [|discriminate|].
    + rewrite Hin; [done|discriminate|left; discriminate].
    + intros c0 Hrep Hst. by destruct (Hnot c0 Hrep).
Qed.

(** [summarize] keeps the order of [Set]: on conditions with [Ready] first,
    the other types ascending and no type twice, it leaves conditions in
    that order again, whichever it deletes and whatever it sets. *)
Theorem summarize_canonical pdq (now : Time) req :
  pdqPermutes pdq -> pdqSorts pdq ->
  canonical (GetConditions (Object req)) ->
  canonical (GetConditions (Object (summarize pdq now req))).
Proof.
  intros Hperm Hsorts Hcan. simpl. set (obj := Object req) in *.
  set (inp := summarizeInput obj). set (conds2 := GetConditions inp).
  assert (Hcan2 : canonical conds2) by by apply canonical_summarizeInput.
  rewrite summarizeObject_representative.
  destruct (representative obj) as [c0|] eqn:Hrep; [|done].
  destruct (summarizeObject_conditions pdq now obj c0 Hperm Hrep)
    as (ready & Hst & Hready & Hother).
  rewrite summarizeObject_representative, Hrep in Hready, Hother.
  fold inp in Hready, Hother |- *. fold conds2 in Hother.
  apply sorted_canonical; [|rewrite GetConditions_Set; by apply Slice_sorted].
  intros t. destruct (decide (t = ReadyCondition)) as [->|Hne].
  - rewrite Hready. simpl.
    assert (Hle : length (ofType ReadyCondition (sortedConditions obj)) <= 1).
    { unfold ofType, sortedConditions. rewrite SliceStable_Permutation.
      by apply canonical_ofType. }
    destruct (ofType ReadyCondition (sortedConditions obj)) as [|x [|y l]];
      simpl in *; lia.
  - rewrite (Hother t Hne).
    destruct (bool_decide (readyStatus c0 = ConditionTrue /\ t = StalledCondition));
      [simpl; lia|].
    by apply canonical_ofType.
Qed.
End SummarizeFurther.

(** *** The choice of the summary *)

Section SummaryChoice.
Implicit Types (obj : HelmRelease) (c : Condition) (conds : list Condition).
Implicit Types (t : string) (pdq : list Condition -> list Condition).

Lemma canonical_filter_or (P Q : Condition -> Prop)
    `{!forall c, Decision (P c)} `{!forall c, Decision (Q c)} conds :
  (forall c, P c -> ~ Q c) ->
  (forall x y, Q x -> P y -> conditions.lexicographicLess x y = false) ->
  canonical conds ->
  filter (fun c => P c \/ Q c) conds = (filter P conds ++ filter Q conds)%list.
Proof.
  intros Hdis Hord. induction 1 as [|x l Hl IH Hx]; [done|].
  rewrite !filter_cons.
  destruct (decide (P x)) as [HP|HP].
  - rewrite decide_True by tauto. rewrite (decide_False (P:=Q x)) by by apply Hdis.
    simpl. by rewrite IH.
  - destruct (decide (Q x)) as [HQ|HQ].
    + rewrite decide_True by tauto.
      assert (Hnil : filter P l = []).
      { destruct (filter P l) as [|y k] eqn:Hf; [done|].
        assert (Hy : y ∈ filter P l) by (rewrite Hf; by left).
        apply list_elem_of_filter in Hy as [HPy Hy].
        rewrite Forall_forall in Hx. specialize (Hx y Hy).
        by rewrite (Hord x y HQ HPy) in Hx. }
      rewrite IH, Hnil. done.
    + rewrite decide_False by tauto. done.
Qed.

Lemma ofType_canonical obj t :
  canonical (GetConditions obj) ->
  ofType t (GetConditions obj) = option_list (conditions.Get obj t).
Proof.
  intros Hc. rewrite Get_ofType. pose proof (canonical_ofType _ t Hc) as Hle.
  destruct (ofType t (GetConditions obj)) as [|x [|y l]]; simpl in *; [done|done|lia].
Qed.

Lemma filter_all {A} (P : A -> Prop) `{!forall a, Decision (P a)} (l : list A) :
  filter P l = [] -> filter (fun a => ~ P a) l = l.
Proof.
  induction l as [|x l IH]; [done|]. rewrite !filter_cons.
  destruct (decide (P x)); [done|]. intros Hn. rewrite decide_True by done.
  by rewrite IH.
Qed.

(** The conditions of the priority list, in the order of [Set]. *)
Lemma summary_conditions_canonical obj :
  canonical (GetConditions obj) ->
  filter (fun c => Type_ c ∈ sumConds obj) (GetConditions obj)
  = (option_list (conditions.Get obj ReleasedCondition)
       ++ option_list (conditions.Get obj RemediatedCondition)
       ++ (if Enable (GetTest obj) && negb (IgnoreFailures (GetTest obj))
           then option_list (conditions.Get obj TestSuccessCondition)
           else []))%list.
Proof.
  intros Hc. rewrite <- !ofType_canonical by done. unfold ofType.
  assert (H2 : filter (fun c => Type_ c = ReleasedCondition
                                \/ Type_ c = RemediatedCondition) (GetConditions obj)
               = (filter (fun c => Type_ c = ReleasedCondition) (GetConditions obj)
                    ++ filter (fun c => Type_ c = RemediatedCondition)
                         (GetConditions obj))%list).
  { apply (canonical_filter_or (fun c => Type_ c = ReleasedCondition)
             (fun c => Type_ c = RemediatedCondition)); [| |done].
    { intros c Hx Hy. rewrite Hx in Hy. discriminate. }
    intros x y Hx Hy. unfold conditions.lexicographicLess. by rewrite Hx, Hy. }
  unfold sumConds.
  destruct (Enable (GetTest obj) && negb (IgnoreFailures (GetTest obj))).
  - rewrite app_assoc, <- H2.
    rewrite <- (canonical_filter_or
                  (fun c => Type_ c = ReleasedCondition \/ Type_ c = RemediatedCondition)
                  (fun c => Type_ c = TestSuccessCondition)); [| | |done].
    + apply list_filter_iff. intros c.
      rewrite !elem_of_cons, elem_of_nil. tauto.
    + intros c [Hx|Hx]; rewrite Hx; discriminate.
    + intros x y Hx [Hy|Hy]; unfold conditions.lexicographicLess;
        by rewrite Hx, Hy.
  - rewrite app_nil_r, <- H2. apply list_filter_iff. intros c.
    rewrite !elem_of_cons, elem_of_nil. tauto.
Qed.

(** On at most 20 conditions in the order of [Set] the representative is
    the choice of the summary. *)
Lemma representative_choice obj :
  canonical (GetConditions obj) -> length (GetConditions obj) <= 20 ->
  representative obj = summaryChoice obj.
Proof.
  intros Hcan Hlen. set (inp := summarizeInput obj).
  assert (Hcan2 : canonical (GetConditions inp)) by by apply canonical_summarizeInput.
  assert (Hlen2 : length (GetConditions inp) <= 20).
  { pose proof (length_summarizeInput obj). unfold inp. lia. }
  assert (Htest : GetTest inp = GetTest obj) by apply GetTest_Spec, Spec_summarizeInput.
  assert (Hsc : sumConds inp = sumConds obj) by by apply sumConds_GetTest.
  unfold representative, sortedConditions. fold inp.
  rewrite sorted_partition by done.
  pose proof (summary_conditions_canonical inp Hcan2) as Hf.
  rewrite Hsc, Htest in Hf.
  unfold summaryChoice. fold inp.
  destruct (conditions.Get inp RemediatedCondition) as [rem|] eqn:Hrem;
    destruct (conditions.Get inp ReleasedCondition) as [rel|] eqn:Hrel;
    destruct (conditions.Get inp TestSuccessCondition) as [ts|] eqn:Hts;
    try (apply Get_Some_elem_of in Hrem as [_ Hrem];
         destruct rem as [ty1 s1 g1 tm1 r1 m1]; simpl in Hrem; subst ty1);
    try (apply Get_Some_elem_of in Hrel as [_ Hrel];
         destruct rel as [ty2 s2 g2 tm2 r2 m2]; simpl in Hrel; subst ty2);
    try (apply Get_Some_elem_of in Hts as [_ Hts];
         destruct ts as [ty3 s3 g3 tm3 r3 m3]; simpl in Hts; subst ty3);
    unfold sumConds in *;
    destruct (Enable (GetTest obj) && negb (IgnoreFailures (GetTest obj)));
    simpl in Hf; rewrite Hf;
    unfold insertionSorted; simpl;
    repeat (first
      [ progress (unfold summaryLess, inStringSlice; simpl)
      | match goal with
        | |- context [(?a <=? ?b)%Z] => destruct (a <=? b)%Z; simpl
        end ]);
    try done;
    by rewrite filter_all by done.
Qed.

(** The decision of [summarize] on at most 20 conditions in the order of
    [Set]: the representative is the [Remediated] condition that was not
    cleared, unless [Released] has a greater generation, and then it is
    [Released], whatever [TestSuccess] says; without [Remediated] it is
    [TestSuccess] when the tests count and its generation is not below the
    one of [Released], else [Released]; without any of the three it is the
    first condition. [Ready] gets the status (False for [Remediated]), the
    reason and the message of that condition and the generation of the
    object, and there is no [Ready] when there is no such condition. *)
Theorem summarize_choice pdq (now : Time) (req : Request) :
  pdqPermutes pdq ->
  canonical (GetConditions (Object req)) ->
  length (GetConditions (Object req)) <= 20 ->
  let obj := Object req in
  representative obj = summaryChoice obj
  /\ readyState (Object (summarize pdq now req))
     = (fun c0 => (readyStatus c0, Reason c0, Message c0, Generation obj))
         <$> summaryChoice obj.
Proof.
  intros Hperm Hcan Hlen. simpl. set (obj := Object req) in *.
  pose proof (representative_choice obj Hcan Hlen) as Hrep.
  split; [done|]. rewrite <- Hrep. unfold readyState.
  destruct (representative obj) as [c0|] eqn:Hc0.
  - destruct (summarizeObject_ready pdq now obj c0 Hperm Hc0)
      as (ready & Hst & _ & Hget & _).
    rewrite Hget by by apply canonical_ofType. simpl.
    destruct Hst as (_ & Hs & Hg & Hr & Hm). simpl in *.
    by rewrite Hs, Hg, Hr, Hm.
  - rewrite summarizeObject_representative, Hc0.
    apply representative_None in Hc0.
    unfold conditions.Get. by rewrite Hc0.
Qed.
End SummaryChoice.

(** *** The comparator of the summary *)

(** The comparator of [summarize], for any priority list: no condition
    sorts before itself, no two sort before each other, and sorting before
    is transitive; but of three conditions the first can sort before the
    third while the second sorts neither before nor after either of them,
    which the [Less] of package sort must not do: a [Remediated] of
    generation 2 sorts before a [Released] of generation 1, and a
    [Released] of generation 3 stands apart from both. *)
Theorem summaryLess_order (list : list string) :
  (forall c, summaryLess list c c = false)
  /\ (forall c d, summaryLess list c d = true -> summaryLess list d c = false)
  /\ (forall c d e,
        summaryLess list c d = true -> summaryLess list d e = true ->
        summaryLess list c e = true)
  /\ exists c d e,
       let less := summaryLess [RemediatedCondition; ReleasedCondition] in
       less c d = false /\ less d c = false
       /\ less d e = false /\ less e d = false
       /\ less c e = true.
Proof.
  split; [|split; [|split]].
  - intros c. unfold summaryLess.
    destruct (inStringSlice list (Type_ c)) as [p [|]]; simpl; [|done].
    rewrite Z.ltb_irrefl. apply andb_false_r.
  - intros c d. unfold summaryLess.
    destruct (inStringSlice list (Type_ c)) as [p [|]];
      destruct (inStringSlice list (Type_ d)) as [q [|]]; simpl; try done.
    intros [_ Hpq%Z.ltb_lt]%andb_true_iff.
    rewrite (proj2 (Z.ltb_ge q p)) by lia. apply andb_false_r.
  - intros c d e. unfold summaryLess.
    destruct (inStringSlice list (Type_ c)) as [p [|]];
      destruct (inStringSlice list (Type_ d)) as [q [|]];
      destruct (inStringSlice list (Type_ e)) as [s [|]]; simpl; try done.
    rewrite !andb_true_iff, !Z.leb_le, !Z.ltb_lt. lia.
  - exists (condition RemediatedCondition ConditionTrue 2 EmptyString EmptyString),
           (condition ReleasedCondition ConditionTrue 3 EmptyString EmptyString),
           (condition ReleasedCondition ConditionTrue 1 EmptyString EmptyString).
    by vm_compute.
Qed.

(** *** The event helpers *)

Lemma prefix_append (s t : string) : String.prefix s (s ++ t) = true.
Proof.
  induction s as [|ch s IH]; simpl; [by destruct t|].
  destruct (ascii_dec ch ch); [done|congruence].
Qed.

Lemma prefix_refl (s : string) : String.prefix s s = true.
Proof.
  induction s as [|ch s IH]; simpl; [done|].
  destruct (ascii_dec ch ch); [done|congruence].
Qed.

Lemma length_append (s t : string) :
  String.length (s ++ t) = String.length s + String.length t.
Proof. induction s as [|ch s IH]; simpl; [done|]. by rewrite IH. Qed.

Section EventsFurther.
Variable Group : string.

(** [eventMetaGroupKey] gives distinct keys distinct annotation keys, all
    under the group; the map of [eventMeta] has one entry for each of the
    revision and the token that is not empty, it is never a map without
    entries (it is nil instead, and then both are empty), and it never
    holds an empty value. *)
Theorem eventMeta_entries (revision token : string) :
  (forall key key',
     eventMetaGroupKey Group key = eventMetaGroupKey Group key' <-> key = key')
  /\ (forall key, String.prefix Group (eventMetaGroupKey Group key) = true)
  /\ match eventMeta Group revision token with
     | None => revision = EmptyString /\ token = EmptyString
     | Some metadata =>
         size metadata
         = (if decide (revision = EmptyString) then 0 else 1)
           + (if decide (token = EmptyString) then 0 else 1)
         /\ metadata <> ∅
         /\ map_Forall (fun _ value => value <> EmptyString) metadata
     end.
Proof.
  split; [|split].
  - intros key key'. split; [apply eventMetaGroupKey_inj|by intros ->].
  - intros key. apply prefix_append.
  - pose proof (eventMeta_keys_differ Group) as Hne. unfold eventMeta.
    destruct (String.eqb_spec revision EmptyString) as [->|Hr];
      destruct (String.eqb_spec token EmptyString) as [->|Ht]; simpl.
    + done.
    + rewrite decide_False by done. split; [by rewrite map_size_insert_None|].
      split; [apply insert_non_empty|]. by apply map_Forall_insert_2.
    + rewrite decide_False by done. split; [by rewrite map_size_insert_None|].
      split; [apply insert_non_empty|]. by apply map_Forall_insert_2.
    + rewrite !decide_False by done. split.
      { rewrite map_size_insert_None.
        - by rewrite map_size_insert_None.
        - rewrite lookup_insert_ne by done. apply lookup_empty. }
      split; [apply insert_non_empty|].
      apply map_Forall_insert_2; [done|]. by apply map_Forall_insert_2.
Qed.
End EventsFurther.

(** The message of the event always starts with the given message;
    [eventMessageWithLog] returns the message unchanged exactly when the
    buffer is nil or holds nothing, and otherwise the result is longer by
    the 19 characters of the header and the text of the buffer. *)
Theorem eventMessageWithLog_extends (msg : string) (log : option LogBuffer) :
  String.prefix msg (eventMessageWithLog msg log) = true
  /\ (eventMessageWithLog msg log = msg
      <-> log = None \/ exists l, log = Some l /\ (Len l <= 0)%Z)
  /\ (forall l, log = Some l -> (0 < Len l)%Z ->
        String.length (eventMessageWithLog msg log)
        = String.length msg + 19 + String.length (LogString l)).
Proof.
  unfold eventMessageWithLog. destruct log as [l|].
  - destruct (Z.ltb_spec 0 (Len l)) as [Hpos|Hle].
    + split; [apply prefix_append|]. split.
      * split.
        -- intros Heq. apply (f_equal String.length) in Heq.
           rewrite !length_append in Heq.
           change (String.length logHeader) with 19 in Heq. lia.
        -- intros [?|(l' & [= <-] & ?)]; [done|lia].
      * intros l' [= <-] _. rewrite !length_append.
        change (String.length logHeader) with 19. lia.
    + split; [apply prefix_refl|].
      split; [|intros l' [= <-] ?; lia].
      split; [|done]. intros _. right. by exists l.
  - split; [apply prefix_refl|].
    split; [|done]. split; [by left|done].
Qed.

(** *** The statements at sample objects *)

Lemma summarize_no_ready_stale :
  conditions.Get
    (Object (summarize pdqInsertion 100%Z {| Object := staleTestObject |}))
    ReadyCondition = None.
Proof.
  apply (proj1 (summarize_no_ready pdqInsertion 100%Z {| Object := staleTestObject |}
                  pdqInsertion_permutes)).
  reflexivity.
Defined.

Lemma summarize_other_types_recovered :
  ofType ReleasedCondition
    (GetConditions
       (Object (summarize pdqInsertion 100%Z {| Object := recoveredObject |})))
  ≡ₚ ofType ReleasedCondition (GetConditions recoveredObject).
Proof.
  apply (proj1 (summarize_other_types pdqInsertion 100%Z
                  {| Object := recoveredObject |} pdqInsertion_permutes));
    discriminate.
Defined.

Lemma failedTestsObject_canonical : canonical (GetConditions failedTestsObject).
Proof. repeat constructor. Qed.

Lemma summarize_canonical_failed_tests :
  canonical
    (GetConditions
       (Object (summarize pdqInsertion 100%Z {| Object := failedTestsObject |}))).
Proof.
  apply (summarize_canonical pdqInsertion 100%Z {| Object := failedTestsObject |}
           pdqInsertion_permutes pdqInsertion_sorts failedTestsObject_canonical).
Defined.

Lemma failedRetestObject_canonical : canonical (GetConditions failedRetestObject).
Proof. repeat constructor. Qed.

(** Released at generation 5 after a remediation at generation 3, the
    tests of generation 5 failed: the remediation is not cleared, [Released]
    has the greater generation, and [Ready] is [True]. *)
Lemma summarize_choice_failed_retest :
  readyState
    (Object (summarize pdqInsertion 100%Z {| Object := failedRetestObject |}))
  = Some (ConditionTrue, "UpgradeSucceeded"%string, "upgraded"%string, 5%Z).
Proof.
  refine (eq_trans
            (proj2 (summarize_choice pdqInsertion 100%Z
                      {| Object := failedRetestObject |} pdqInsertion_permutes
                      failedRetestObject_canonical _)) _).
  - vm_compute. lia.
  - reflexivity.
Defined.
